(** * pubmed-rna-digest: the ingest-and-select pipeline of [scripts/fetch_papers.py]

    A shallow embedding of the recency filter, the identity ledger
    ([data/seen_ids.json]), the score cache ([data/scores.json]), the scoring
    pass, the selector ([select_unseen]) and the daily snapshot writer, with
    the properties of the design document stated over it. *)

From Stdlib Require Import ZArith String Ascii List Lia Permutation Sorted.
From stdpp Require Import base option list sets gmap strings sorting.

Local Open Scope string_scope.
Local Open Scope list_scope.

(* stdpp's solvers clear hypotheses by name and say so when one is gone. *)
#[local] Set Warnings "-clear-no-such-hyp".

(** ** Document records

    A paper is a Python [dict].  The pipeline only ever reads the keys below;
    [p.get("id")] and [p.get("published")] return [None] for a missing key,
    hence the [option] on those two fields, and ["score"] is absent until
    [main] attaches it. *)

Record paper : Type := Paper {
  p_id : option string;
  p_title : string;
  p_abstract : string;
  p_authors : list string;
  p_published : option string;
  p_journal : string;
  p_url : string;
  p_score : option Z
}.

(** A Python [str] is a sequence of code points.  A text is held here as a
    [string] of 8-bit characters, which is exact for the texts whose
    characters are all ASCII.  [str.strip], [str.lower] and the digits read by
    [strptime] also act on characters outside ASCII (U+00A0 is white space,
    U+FF11 is a decimal digit), so the properties that rest on them are
    stated for ASCII texts. *)
Definition is_ascii (s : string) : bool :=
  forallb (λ c, (nat_of_ascii c <? 128)%nat) (list_ascii_of_string s).

Definition ascii_text (x : option string) : bool :=
  match x with
  | Some s => is_ascii s
  | None => true
  end.

Definition ascii_published (p : paper) : bool := ascii_text (p_published p).

(** Python truthiness of [p.get("id")]: [not pid] holds for [None] and for
    the empty string. *)
Definition py_not (pid : option string) : bool :=
  match pid with
  | None => true
  | Some s => bool_decide (s = "")
  end.

(** ** Exceptions

    A call either returns or raises; [try ... except Exception] turns every
    raise into the handler's result. *)

Inductive py_exn : Type :=
  | TypeError | ValueError | OverflowError | AttributeError
  | JSONDecodeError | FileNotFoundError | APIError.

Inductive result (A : Type) : Type :=
  | Ok (a : A)
  | Raise (e : py_exn).
Arguments Ok {A} a.
Arguments Raise {A} e.

#[global] Instance result_ret : MRet result := λ A a, Ok a.
#[global] Instance result_bind : MBind result := λ A B k r,
  match r with
  | Ok a => k a
  | Raise e => Raise e
  end.

Definition try_except {A : Type} (body : result A) (handler : py_exn → result A)
  : result A :=
  match body with
  | Ok a => Ok a
  | Raise e => handler e
  end.

(** ** [sorted(..., key=..., reverse=True)]

    Python's sort is stable and compares keys with [<] only; with
    [reverse=True] the result is descending and records with equal keys keep
    their input order.  The model inserts each record, from the right, in
    front of the first record it is not smaller than. *)

Section py_sorted.
Context {A K : Type} (key : A → K) (ltb : K → K → bool).

Fixpoint insert_desc (x : A) (l : list A) : list A :=
  match l with
  | [] => [x]
  | y :: l' =>
      if ltb (key x) (key y) then y :: insert_desc x l' else x :: y :: l'
  end.

Definition sorted_reverse (l : list A) : list A := foldr insert_desc [] l.

(** No record is placed before one with a strictly larger key. *)
Definition desc_sorted (l : list A) : Prop :=
  StronglySorted (λ a b, ltb (key a) (key b) = false) l.
End py_sorted.

(** ** Dates and times

    A naive [datetime] is the number of microseconds since
    0001-01-01T00:00:00 ([datetime.min]); [datetime.max] is the last
    microsecond of 9999-12-31, whose day has ordinal 3652059. *)

Definition us_per_day : Z := 86400000000.
Definition max_ordinal : Z := 3652059.

Definition datetime_in_range (t : Z) : bool :=
  (0 <=? t)%Z && (t <? max_ordinal * us_per_day)%Z.

(** [timedelta(days=days)]: the day count is limited to nine decimal digits. *)
Definition timedelta_days (days : Z) : result Z :=
  if (Z.abs days <=? 999999999)%Z then Ok (days * us_per_day)%Z
  else Raise OverflowError.

(** [now - delta] *)
Definition datetime_sub (now delta : Z) : result Z :=
  if datetime_in_range (now - delta) then Ok (now - delta)%Z
  else Raise OverflowError.

Definition is_leap (y : Z) : bool :=
  ((y mod 4 =? 0) && (negb (y mod 100 =? 0) || (y mod 400 =? 0)))%Z.

Definition days_in_month (y m : Z) : Z :=
  match m with
  | 1 | 3 | 5 | 7 | 8 | 10 | 12 => 31
  | 4 | 6 | 9 | 11 => 30
  | 2 => if is_leap y then 29 else 28
  | _ => 0
  end%Z.

Definition days_before_year (y : Z) : Z :=
  ((y - 1) * 365 + (y - 1) / 4 - (y - 1) / 100 + (y - 1) / 400)%Z.

Definition days_before_month (y m : Z) : Z :=
  foldr Z.add 0%Z (map (days_in_month y) (map Z.of_nat (seq 1 (Z.to_nat (m - 1))))).

(** [date(y, m, d).toordinal()] *)
Definition ymd2ord (y m d : Z) : Z :=
  (days_before_year y + days_before_month y m + d)%Z.

(** The value of a decimal digit, for an ASCII character. *)
Definition digit (c : ascii) : option Z :=
  let n := Z.of_nat (nat_of_ascii c) in
  if (48 <=? n)%Z && (n <=? 57)%Z then Some (n - 48)%Z else None.

(** One or two characters matched by an alternation of two-character
    patterns [two] tried before the single-character pattern [[1-9]], as in
    the directives [%m] and [%d]. *)
Definition one_or_two (two : Z → Z → bool) (s : string) : option (Z * string) :=
  match s with
  | String a r =>
      match digit a with
      | Some da =>
          let single := if (1 <=? da)%Z then Some (da, r) else None in
          match r with
          | String b r' =>
              match digit b with
              | Some db => if two da db then Some (10 * da + db, r')%Z else single
              | None => single
              end
          | EmptyString => single
          end
      | None => None
      end
  | EmptyString => None
  end.

(** [%m] is [1[0-2]|0[1-9]|[1-9]]. *)
Definition month_two (a b : Z) : bool :=
  ((a =? 1) && (b <=? 2) || (a =? 0) && (1 <=? b))%Z.

(** [%d] is [3[0-1]|[1-2]\d|0[1-9]|[1-9]| [1-9]]. *)
Definition day_two (a b : Z) : bool :=
  ((a =? 3) && (b <=? 1) || (a =? 1) || (a =? 2) || (a =? 0) && (1 <=? b))%Z.

Definition parse_day (s : string) : option (Z * string) :=
  match one_or_two day_two s with
  | Some r => Some r
  | None =>
      match s with
      | String " " (String b r) =>
          match digit b with
          | Some db => if (1 <=? db)%Z then Some (db, r) else None
          | None => None
          end
      | _ => None
      end
  end.

(** [%Y] is exactly four digits. *)
Definition parse_year (s : string) : option (Z * string) :=
  match s with
  | String a (String b (String c (String d r))) =>
      match digit a, digit b, digit c, digit d with
      | Some da, Some db, Some dc, Some dd =>
          Some (1000 * da + 100 * db + 10 * dc + dd, r)%Z
      | _, _, _, _ => None
      end
  | _ => None
  end.

Definition expect_dash (s : string) : option string :=
  match s with
  | String "-" r => Some r
  | _ => None
  end.

(** [datetime.strptime(pub_str, "%Y-%m-%d")] on a string of ASCII characters:
    the format must match the whole string and the fields must name a day of
    the calendar, from year 1 on; the result is that day's midnight. *)
Definition strptime_ymd (s : string) : result Z :=
  match
    '(y, s1) ← parse_year s;
    s2 ← expect_dash s1;
    '(m, s3) ← one_or_two month_two s2;
    s4 ← expect_dash s3;
    '(d, s5) ← parse_day s4;
    if bool_decide (s5 = "") && (1 <=? y)%Z && (d <=? days_in_month y m)%Z
    then Some ((ymd2ord y m d - 1) * us_per_day)%Z
    else None
  with
  | Some t => Ok t
  | None => Raise ValueError
  end.

(** [strptime] on [p.get("published")]: [None] is not a string. *)
Definition strptime_published (pub_str : option string) : result Z :=
  match pub_str with
  | Some s => strptime_ymd s
  | None => Raise TypeError
  end.

(** ** The recency filter: [filter_recent] *)

Fixpoint filter_recent_loop (threshold : Z) (papers filtered : list paper)
  : list paper :=
  match papers with
  | [] => filtered
  | p :: rest =>
      match strptime_published (p_published p) with
      | Raise _ => filter_recent_loop threshold rest filtered
      | Ok pub_dt =>
          if (pub_dt <? threshold)%Z
          then filter_recent_loop threshold rest filtered
          else filter_recent_loop threshold rest (filtered ++ [p])
      end
  end.

Definition published_key (x : paper) : string := default "" (p_published x).

Definition filter_recent (now : Z) (papers : list paper) (days : Z)
  : result (list paper) :=
  delta ← timedelta_days days;
  threshold ← datetime_sub now delta;
  let filtered := filter_recent_loop threshold papers [] in
  Ok (sorted_reverse published_key String.ltb filtered).

(** A [datetime] from its calendar fields, for stating examples. *)
Definition datetime_of (y m d hh mm ss : Z) : Z :=
  ((ymd2ord y m d - 1) * us_per_day + ((hh * 60 + mm) * 60 + ss) * 1000000)%Z.

(** ** Durable stores

    A JSON file as [json.load] sees it: missing, present with a text the
    parser rejects (the empty file is one), or present with a document. *)

Inductive stored (A : Type) : Type :=
  | Absent
  | Invalid
  | Document (doc : A).
Arguments Absent {A}.
Arguments Invalid {A}.
Arguments Document {A} doc.

Definition path_exists {A : Type} (f : stored A) : bool :=
  match f with
  | Absent => false
  | _ => true
  end.

(** [with open(path, "r") as f: json.load(f)] *)
Definition json_load {A : Type} (f : stored A) : result A :=
  match f with
  | Absent => Raise FileNotFoundError
  | Invalid => Raise JSONDecodeError
  | Document doc => Ok doc
  end.

(** Writing a file is two steps: [open(path, "w")] creates the file or
    truncates it to length zero, and [json.dump] followed by the close of the
    [with] block leaves the serialised document in it. *)
Inductive file_op (A : Type) : Type :=
  | OpenW
  | Dump (doc : A).
Arguments OpenW {A}.
Arguments Dump {A} doc.

Definition apply_op {A : Type} (f : stored A) (op : file_op A) : stored A :=
  match op with
  | OpenW => Invalid
  | Dump doc => Document doc
  end.

Definition run_ops {A : Type} (f : stored A) (ops : list (file_op A)) : stored A :=
  foldl apply_op f ops.

(** The contents a crash can leave behind: the file after any number of the
    steps, none and all included. *)
Definition crash_states {A : Type} (f : stored A) (ops : list (file_op A))
  : list (stored A) :=
  map (λ n, run_ops f (take n ops)) (seq 0 (S (length ops))).

(** ** The identity ledger, [data/seen_ids.json]

    The document is a JSON array, given by the [str] image of each item, or
    some other JSON value. *)
Inductive ledger_doc : Type :=
  | LedgerList (items : list string)
  | LedgerOther.

Definition load_seen_ids (f : stored ledger_doc) : result (gset string) :=
  if negb (path_exists f) then Ok ∅
  else
    match
      try_except
        (data ← json_load f;
         match data with
         | LedgerList items => Ok (Some (list_to_set items))
         | LedgerOther => Ok None
         end)
        (λ _, Ok (Some ∅))
    with
    | Ok (Some s) => Ok s
    | Ok None => Ok ∅
    | Raise e => Raise e
    end.

(** [sorted(seen)]: ascending, stable. *)
Fixpoint insert_asc (x : string) (l : list string) : list string :=
  match l with
  | [] => [x]
  | y :: l' => if String.ltb y x then y :: insert_asc x l' else x :: y :: l'
  end.

Definition sorted_strings (l : list string) : list string := foldr insert_asc [] l.

Definition save_seen_ids_ops (seen : gset string) : list (file_op ledger_doc) :=
  [OpenW; Dump (LedgerList (sorted_strings (elements seen)))].

Definition save_seen_ids (seen : gset string) (f : stored ledger_doc)
  : stored ledger_doc :=
  run_ops f (save_seen_ids_ops seen).

(** ** The selector: [select_unseen]

    The [for] loop of the source with its two accumulators; [continue] is the
    recursive call on the rest with the accumulators unchanged, [break] is
    the return of the accumulators. *)

Fixpoint select_unseen_loop (papers : list paper) (seen : gset string)
    (limit : Z) (selected : list paper) (new_seen : gset string)
  : list paper * gset string :=
  match papers with
  | [] => (selected, new_seen)
  | p :: rest =>
      match p_id p with
      | None => select_unseen_loop rest seen limit selected new_seen
      | Some pid =>
          if py_not (Some pid) || bool_decide (pid ∈ seen)
          then select_unseen_loop rest seen limit selected new_seen
          else
            let selected' := selected ++ [p] in
            let new_seen' := new_seen ∪ {[pid]} in
            if bool_decide (limit ≤ Z.of_nat (length selected'))%Z
            then (selected', new_seen')
            else select_unseen_loop rest seen limit selected' new_seen'
      end
  end.

Definition select_unseen (papers : list paper) (seen : gset string) (limit : Z)
  : list paper * gset string :=
  select_unseen_loop papers seen limit [] ∅.

(** ** The score cache, [data/scores.json]

    The document is a JSON object, given by its keys and, for each value [v],
    the outcome of [int(v)] ([None] where it raises), or some other JSON
    value. *)
Inductive cache_doc : Type :=
  | CacheDict (members : gmap string (option Z))
  | CacheOther.

(** [{str(k): int(v) for k, v in data.items()}]: one value that [int]
    rejects makes the comprehension raise. *)
Definition int_values (members : gmap string (option Z)) : result (gmap string Z) :=
  if bool_decide (map_Forall (λ _ v, is_Some v) members)
  then Ok (omap id members)
  else Raise ValueError.

Definition load_scores (f : stored cache_doc) : result (gmap string Z) :=
  if negb (path_exists f) then Ok ∅
  else
    match
      try_except
        (data ← json_load f;
         match data with
         | CacheDict members => m ← int_values members; Ok (Some m)
         | CacheOther => Ok None
         end)
        (λ _, Ok (Some ∅))
    with
    | Ok (Some m) => Ok m
    | Ok None => Ok ∅
    | Raise e => Raise e
    end.

Definition save_scores_ops (scores : gmap string Z) : list (file_op cache_doc) :=
  [OpenW; Dump (CacheDict (Some <$> scores))].

Definition save_scores (scores : gmap string Z) (f : stored cache_doc)
  : stored cache_doc :=
  run_ops f (save_scores_ops scores).

(** ** The relevance oracle adapter: [score_with_deepseek]

    The reply is an ASCII text: [is_space] is [str.isspace] and
    [lower_ascii] is [str.lower] on the ASCII characters. *)

Definition is_space (c : ascii) : bool :=
  let n := nat_of_ascii c in
  ((9 <=? n) && (n <=? 13) || (28 <=? n) && (n <=? 32))%nat.

Fixpoint lstrip (s : string) : string :=
  match s with
  | String c r => if is_space c then lstrip r else s
  | EmptyString => EmptyString
  end.

Fixpoint rstrip (s : string) : string :=
  match s with
  | String c r =>
      match rstrip r with
      | EmptyString => if is_space c then EmptyString else String c EmptyString
      | r' => String c r'
      end
  | EmptyString => EmptyString
  end.

Definition strip (s : string) : string := rstrip (lstrip s).

Definition lower_ascii (c : ascii) : ascii :=
  let n := nat_of_ascii c in
  if ((65 <=? n) && (n <=? 90))%nat then ascii_of_nat (n + 32) else c.

Fixpoint lower (s : string) : string :=
  match s with
  | String c r => String (lower_ascii c) (lower r)
  | EmptyString => EmptyString
  end.

Definition startswith (s pre : string) : bool := String.prefix pre s.

Fixpoint drop_str (n : nat) (s : string) : string :=
  match n, s with
  | S n', String _ r => drop_str n' r
  | _, _ => s
  end.

(** [s.find(sub)] and [s.rfind(sub)], [None] for [-1]. *)
Fixpoint find (s sub : string) : option nat :=
  if String.prefix sub s then Some 0%nat
  else
    match s with
    | String _ r => S <$> find r sub
    | EmptyString => None
    end.

Fixpoint rfind (s sub : string) : option nat :=
  match s with
  | String _ r =>
      match rfind r sub with
      | Some i => Some (S i)
      | None => if String.prefix sub s then Some 0%nat else None
      end
  | EmptyString => if String.prefix sub EmptyString then Some 0%nat else None
  end.

(** [s.split(sep, maxsplit)] for a separator that is not empty. *)
Fixpoint split (s sep : string) (maxsplit : nat) : list string :=
  match maxsplit with
  | O => [s]
  | S n =>
      match find s sep with
      | Some i =>
          String.substring 0 i s :: split (drop_str (i + String.length sep) s) sep n
      | None => [s]
      end
  end.

Definition newline : string := String "010" EmptyString.

(** The code-fence handling: lines 273-279 of the source. *)
Definition unwrap_fence (content : string) : string :=
  if startswith content "```" then
    let parts := split content "```" 2 in
    let content := if (2 <=? length parts)%nat then nth 1 parts "" else content in
    let content := lstrip content in
    if startswith (lower content) "json" then
      match find content newline with
      | Some _ => nth 1 (split content newline 1) ""
      | None => ""
      end
    else content
  else content.

(** The text handed to the parser: from the first opening brace to the last
    closing brace, or the whole text; lines 282-287. *)
Definition json_payload (content : string) : string :=
  match find content "{", rfind content "}" with
  | Some start, Some stop =>
      if (start <? stop)%nat
      then String.substring start (stop + 1 - start) content
      else content
  | _, _ => content
  end.

(** The values [json.loads] returns. *)
#[warnings="-register-all"] Inductive json : Type :=
  | JNull
  | JBool (b : bool)
  | JInt (n : Z)
  | JFloat (literal : string)
  | JString (s : string)
  | JArray (items : list json)
  | JObject (members : list (string * json)).

(** [data.get(key)] on the members of an object: of two members with the
    same name the parser keeps the later. *)
Fixpoint dict_get (members : list (string * json)) (key : string) : option json :=
  match members with
  | [] => None
  | (k, v) :: rest =>
      match dict_get rest key with
      | Some v' => Some v'
      | None => if String.eqb k key then Some v else None
      end
  end.

(** [data.get("score", 0)]: only a [dict] has [get]. *)
Definition get_score (data : json) : result json :=
  match data with
  | JObject members => Ok (default (JInt 0) (dict_get members "score"))
  | _ => Raise AttributeError
  end.

Section adapter.
(** [json.loads] and [int] are the library's. *)
Context (json_loads : string → result json) (py_int : json → result Z).

(** Lines 289-292: parse, read the score, clamp. *)
Definition parse_score (json_str : string) : result Z :=
  data ← json_loads json_str;
  v ← get_score data;
  score ← py_int v;
  Ok (Z.max 0 (Z.min 100 score)).

(** [reply] is the outcome of [resp.choices[0].message.content] for the
    request built from the paper: the call may raise. *)
Definition score_with_deepseek (reply : result string) : option Z :=
  match
    try_except
      (content ← reply;
       let content := strip content in
       let content := unwrap_fence content in
       let json_str := json_payload content in
       score ← parse_score json_str;
       Ok (Some score))
      (λ _, Ok None)
  with
  | Ok r => r
  | Raise _ => None
  end.
End adapter.

(** ** The daily snapshots, [data/papers/<date>.json] *)

Record disk : Type := Disk {
  seen_ids_json : stored ledger_doc;
  scores_json : stored cache_doc;
  papers_dir : gmap string (list paper)
}.

(** [save_papers(papers, date_str)] overwrites the file of that date. *)
Definition save_papers (papers : list paper) (date_str : string) (d : disk) : disk :=
  {| seen_ids_json := seen_ids_json d;
     scores_json := scores_json d;
     papers_dir := <[date_str := papers]> (papers_dir d) |}.

(** ** The scoring pass of [main], lines 332-340

    [score n p] is the outcome of [score_with_deepseek(client, p, config)]
    when it is the [n]-th call of the run: the oracle need not answer the
    same way twice.  [calls] records the papers submitted. *)

Fixpoint scoring_loop (score : nat → paper → option Z) (recent : list paper)
    (scores : gmap string Z) (calls : list paper) (new_scores : nat)
  : gmap string Z * list paper * nat :=
  match recent with
  | [] => (scores, calls, new_scores)
  | p :: rest =>
      match p_id p with
      | None => scoring_loop score rest scores calls new_scores
      | Some pid =>
          if py_not (Some pid) || bool_decide (is_Some (scores !! pid))
          then scoring_loop score rest scores calls new_scores
          else
            match score (length calls) p with
            | Some s =>
                scoring_loop score rest (<[pid := s]> scores) (calls ++ [p])
                  (S new_scores)
            | None => scoring_loop score rest scores (calls ++ [p]) new_scores
            end
      end
  end.

(** ** The ranking of [main], lines 349-355

    [float(n)] for a Python integer [n] is the double nearest to [n], ties
    going to the even significand, and raises [OverflowError] when that
    value is 2^1024 or more in magnitude.  A double that is the image of an
    integer is an integer: it is given by its exact value. *)
Definition nearest_double (a : Z) : Z :=
  let e := (Z.log2 a - 52)%Z in
  if (e <=? 0)%Z then a
  else
    let q := (a / 2 ^ e)%Z in
    let r := (a mod 2 ^ e)%Z in
    let half := (2 ^ (e - 1))%Z in
    if (half <? r)%Z || ((r =? half)%Z && Z.odd q) then ((q + 1) * 2 ^ e)%Z
    else (q * 2 ^ e)%Z.

Definition py_float (n : Z) : result Z :=
  let v := nearest_double (Z.abs n) in
  if (2 ^ 1024 <=? v)%Z then Raise OverflowError else Ok (Z.sgn n * v)%Z.

(** [paper_score] of [main]: [float(scores[pid])] for a cached identifier,
    [0.0] when the identifier has no entry ([None in scores] is [False]). *)
Definition paper_score (scores : gmap string Z) (p : paper) : result Z :=
  match p_id p with
  | Some pid =>
      match scores !! pid with
      | Some s => py_float s
      | None => Ok 0%Z
      end
  | None => Ok 0%Z
  end.

(** [sorted] computes the key of every record first, in order, and the
    first call that raises ends it; then it sorts the records on their
    keys. *)
Fixpoint sort_keys (key : paper → result Z) (l : list paper)
  : result (list (Z * paper)) :=
  match l with
  | [] => Ok []
  | p :: rest => k ← key p; keyed ← sort_keys key rest; Ok ((k, p) :: keyed)
  end.

(** [ranked = sorted(recent, key=paper_score, reverse=True)] *)
Definition ranked (scores : gmap string Z) (recent : list paper)
  : result (list paper) :=
  keyed ← sort_keys (paper_score scores) recent;
  Ok (map snd (sorted_reverse fst Z.ltb keyed)).

(** Lines 361-364: attach the cached score to a selected record. *)
Definition attach_score (scores : gmap string Z) (p : paper) : paper :=
  match p_id p with
  | Some pid =>
      match scores !! pid with
      | Some s =>
          {| p_id := p_id p; p_title := p_title p; p_abstract := p_abstract p;
             p_authors := p_authors p; p_published := p_published p;
             p_journal := p_journal p; p_url := p_url p; p_score := Some s |}
      | None => p
      end
  | None => p
  end.

(** ** One run of [main]

    The inputs of a run: [max_papers_per_day] of the configuration when it is
    set, the scorer when [DEEPSEEK_API_KEY] is set, [datetime.utcnow()], the
    local date that names the snapshot, and the records [efetch_pubmed]
    returned. *)
Record run_input : Type := RunInput {
  max_papers_per_day : option Z;
  client : option (nat → paper → option Z);
  utcnow : Z;
  today : string;
  fetched : list paper
}.

(** Lines 329-345: the scoring pass, and the save of the cache when the pass
    has added to it. *)
Definition scoring_pass (i : run_input) (recent : list paper)
    (scores : gmap string Z) (d : disk) : gmap string Z * disk :=
  match client i with
  | Some score =>
      let '(scores', _, new_scores) := scoring_loop score recent scores [] 0 in
      if bool_decide (new_scores ≠ 0%nat)
      then (scores',
            {| seen_ids_json := seen_ids_json d;
               scores_json := save_scores scores' (scores_json d);
               papers_dir := papers_dir d |})
      else (scores', d)
  | None => (scores, d)
  end.

Definition main (i : run_input) (d : disk) : result disk :=
  recent ← filter_recent (utcnow i) (fetched i) 30;
  scores ← load_scores (scores_json d);
  seen ← load_seen_ids (seen_ids_json d);
  let limit := default 5%Z (max_papers_per_day i) in
  let '(scores, d) := scoring_pass i recent scores d in
  ranked ← ranked scores recent;
  let '(today_papers, new_seen) := select_unseen ranked seen limit in
  let today_papers := map (attach_score scores) today_papers in
  let d := save_papers today_papers (today i) d in
  if bool_decide (new_seen ≠ ∅)
  then
    Ok {| seen_ids_json := save_seen_ids (seen ∪ new_seen) (seen_ids_json d);
          scores_json := scores_json d;
          papers_dir := papers_dir d |}
  else Ok d.

(** A run that raises ends the process, and what it had written stays.  The
    recency filter raises before anything is written; the ranking raises
    after the scoring pass, whose save of the cache stays. *)
Definition run (d : disk) (i : run_input) : disk :=
  match main i d with
  | Ok d' => d'
  | Raise _ =>
      match filter_recent (utcnow i) (fetched i) 30, load_scores (scores_json d) with
      | Ok recent, Ok scores => (scoring_pass i recent scores d).2
      | _, _ => d
      end
  end.

Definition runs (d : disk) (inputs : list run_input) : disk := foldl run d inputs.

(** ** The selector in the words of the design document

    Effective score, stable descending sort, then the walk: skip a candidate
    whose identifier is in the ledger, accept any other, stop once [quota]
    are accepted or the list is exhausted.  The walk is written for any test
    [skip]. *)

(** A record the walk of [select_unseen] accepts when it reaches it: the identifier is present,
    not empty and not in the ledger. *)
Definition eligible (seen : gset string) (p : paper) : bool :=
  negb (py_not (p_id p)) &&
  match p_id p with
  | Some pid => negb (bool_decide (pid ∈ seen))
  | None => false
  end.

(** The identifiers of a list of records. *)
Definition ids_of (l : list paper) : gset string := list_to_set (omap p_id l).

Definition in_ledger (ledger : gset string) (c : paper) : bool :=
  match p_id c with
  | Some i => bool_decide (i ∈ ledger)
  | None => false
  end.

Fixpoint walk (skip : paper → bool) (sorted : list paper) (quota : nat)
  : list paper :=
  match sorted, quota with
  | [], _ => []
  | _, O => []
  | c :: rest, S quota' =>
      if skip c then walk skip rest quota
      else c :: walk skip rest quota'
  end.

(** The effective score of the design document: the cached score, 0 when
    the identifier has none. *)
Definition effective_score (scores : gmap string Z) (p : paper) : Z :=
  match p_id p with
  | Some pid => default 0%Z (scores !! pid)
  | None => 0%Z
  end.

Definition rank_spec (scores : gmap string Z) (candidates : list paper)
  : list paper :=
  sorted_reverse (effective_score scores) Z.ltb candidates.

Definition selector_spec (candidates : list paper) (scores : gmap string Z)
    (ledger : gset string) (quota : Z) : list paper :=
  walk (in_ledger ledger) (rank_spec scores candidates) (Z.to_nat quota).

(** The keys the sort of [main] compares, where every key is computed, and
    the caches on whose scores [float] is exact. *)
Definition float_key (scores : gmap string Z) (p : paper) : Z :=
  match paper_score scores p with
  | Ok k => k
  | Raise _ => 0%Z
  end.

Definition exact_floats (scores : gmap string Z) : Prop :=
  map_Forall (λ _ v, (Z.abs v ≤ 2 ^ 53)%Z) scores.

(** ** Records and stores for the examples *)

Definition doc (id published : string) : paper :=
  {| p_id := Some id; p_title := ""; p_abstract := ""; p_authors := [];
     p_published := Some published; p_journal := ""; p_url := "";
     p_score := None |}.

Definition scores_of (l : list (string * Z)) : gmap string Z := list_to_map l.

(** The scenario of the design document: two records of score 90, the first
    the more recent, and one of score 40, in date-descending order. *)
Definition scenario_recent : list paper :=
  [doc "C1" "2024-01-20"; doc "C3" "2024-01-20"; doc "C2" "2024-01-19"].

Definition scenario_scores : gmap string Z :=
  scores_of [("C1", 90%Z); ("C2", 90%Z); ("C3", 40%Z)].

(** A record whose PMID element held only white space: [efetch_pubmed]
    strips it to the empty string. *)
Definition blank_id_doc : paper := doc "" "2024-01-20".

(** ** The recency filter, restated

    The test a record passes in the loop of [filter_recent]: its date parses
    and is not before the threshold. *)
Definition keeps (threshold : Z) (p : paper) : bool :=
  match strptime_published (p_published p) with
  | Ok pub_dt => negb (pub_dt <? threshold)%Z
  | Raise _ => false
  end.

(** The window of the design document: [now - window, now], both ends
    included. *)
Definition in_window_spec (now days pub_dt : Z) : Prop :=
  (now - days * us_per_day ≤ pub_dt ∧ pub_dt ≤ now)%Z.

(** A record dated six years after the run, and the time of the run. *)
Definition future_doc : paper := doc "39000001" "2030-01-01".
Definition run_time : Z := datetime_of 2024 1 31 12 0 0.

(** ** Durability, restated *)

(** What a run reads from the two stores. *)
Definition seen_of (f : stored ledger_doc) : gset string :=
  match load_seen_ids f with
  | Ok s => s
  | Raise _ => ∅
  end.

Definition cache_of (f : stored cache_doc) : gmap string Z :=
  match load_scores f with
  | Ok m => m
  | Raise _ => ∅
  end.

Definition is_ok {A : Type} (r : result A) : bool :=
  match r with
  | Ok _ => true
  | Raise _ => false
  end.

(** The all-or-nothing contract of the design document: whatever the moment
    of a crash, the store holds the prior content or the full new content. *)
Definition crash_atomic {A : Type} (f : stored A) (ops : list (file_op A)) : Prop :=
  ∀ f', f' ∈ crash_states f ops → f' = f ∨ f' = run_ops f ops.

(** An oracle that answers 90 to its first request and 10 to every later
    one. *)
Definition fickle_oracle (n : nat) (p : paper) : option Z :=
  match n with
  | O => Some 90%Z
  | S _ => Some 10%Z
  end.

(** ** A run, restated

    The cache after the scoring pass of a run, and the cache file it leaves. *)
Definition scored (i : run_input) (recent : list paper) (scores : gmap string Z)
  : gmap string Z :=
  match client i with
  | Some score => (scoring_loop score recent scores [] 0).1.1
  | None => scores
  end.

Definition scores_json_after (i : run_input) (recent : list paper)
    (g : stored cache_doc) : stored cache_doc :=
  match client i with
  | Some score =>
      if bool_decide ((scoring_loop score recent (cache_of g) [] 0).2 ≠ 0%nat)
      then save_scores (scoring_loop score recent (cache_of g) [] 0).1.1 g
      else g
  | None => g
  end.

(** The ranking of a run that completes, and what the run selects: the
    output of the selector. *)
Definition ranking (i : run_input) (recent : list paper) (d : disk) : list paper :=
  match ranked (scored i recent (cache_of (scores_json d))) recent with
  | Ok l => l
  | Raise _ => []
  end.

Definition selection (i : run_input) (recent : list paper) (d : disk)
  : list paper * gset string :=
  select_unseen (ranking i recent d) (seen_of (seen_ids_json d))
    (default 5%Z (max_papers_per_day i)).

(** The deduplication invariant: every identifier of a snapshot is in the
    ledger, and the snapshots of two dates share no identifier. *)
Definition snapshots_in_ledger (d : disk) : Prop :=
  ∀ date s, papers_dir d !! date = Some s → ids_of s ⊆ seen_of (seen_ids_json d).

Definition snapshots_disjoint (d : disk) : Prop :=
  ∀ date1 date2 s1 s2,
    date1 ≠ date2 →
    papers_dir d !! date1 = Some s1 → papers_dir d !! date2 = Some s2 →
    ids_of s1 ## ids_of s2.

(** A first installation, and runs over three recent records with no scorer
    configured. *)
Definition fresh_disk : disk :=
  {| seen_ids_json := Absent; scores_json := Absent; papers_dir := ∅ |}.

Definition three_docs : list paper :=
  [doc "101" "2024-01-30"; doc "102" "2024-01-29"; doc "103" "2024-01-28"].

Definition run_on (date : string) (limit : Z) : run_input :=
  {| max_papers_per_day := Some limit; client := None; utcnow := run_time;
     today := date; fetched := three_docs |}.

(** ** Replies of the oracle, for the examples

    A reply that is exactly one payload, and the same payload followed by a
    remark that has braces of its own. *)
Definition dquote : string := String "034" EmptyString.

Definition first_payload : string :=
  "{" +:+ dquote +:+ "score" +:+ dquote +:+ ": 85}".

Definition noisy_reply : string := first_payload +:+ " Note: band {80-100}".

(** A parser that agrees with [json.loads] on the two replies above, where
    the second is rejected for the text after its first value, and [int] on
    JSON integers and booleans. *)
Definition sample_loads (s : string) : result json :=
  if String.eqb s first_payload then Ok (JObject [("score", JInt 85)])
  else Raise JSONDecodeError.

Definition sample_int (v : json) : result Z :=
  match v with
  | JInt n => Ok n
  | JBool b => Ok (if b then 1 else 0)%Z
  | _ => Raise TypeError
  end.

(** ** The scorer of a run with a client

    [reply n p] is what the service answers to the [n]-th request of the
    run, made for [p]; the scorer of [main] is the adapter applied to it. *)
Definition deepseek_scorer (json_loads : string → result json)
    (py_int : json → result Z) (reply : nat → paper → result string)
  : nat → paper → option Z :=
  λ n p, score_with_deepseek json_loads py_int (reply n p).

(** A record the scoring pass submits when it reaches it with the cache
    [scores]: the identifier is present, not empty and not cached. *)
Definition unscored (scores : gmap string Z) (p : paper) : bool :=
  match p_id p with
  | Some pid => negb (py_not (Some pid) || bool_decide (is_Some (scores !! pid)))
  | None => false
  end.

(** A service that is down, and one that always answers 250. *)
Definition service_down (n : nat) (p : paper) : result string := Raise APIError.

Definition run_with (score : nat → paper → option Z) (date : string) (limit : Z)
  : run_input :=
  {| max_papers_per_day := Some limit; client := Some score; utcnow := run_time;
     today := date; fetched := three_docs |}.

(** ** Zero-padded dates

    The text [YYYY-MM-DD] of a day of the calendar, as the f-string of
    [efetch_pubmed] writes it once month and day are padded. *)
Definition digit_char (n : Z) : ascii := ascii_of_nat (48 + Z.to_nat n).
Definition pad2 (n : Z) (rest : string) : string :=
  String (digit_char (n / 10)) (String (digit_char (n mod 10)) rest).
Definition pad4 (n : Z) (rest : string) : string :=
  String (digit_char (n / 1000)) (String (digit_char (n / 100 mod 10))
    (pad2 (n mod 100) rest)).
Definition iso_date (y m d : Z) : string :=
  pad4 y (String "-" (pad2 m (String "-" (pad2 d "")))).
Definition valid_date (y m d : Z) : Prop :=
  (1 ≤ y ≤ 9999 ∧ 1 ≤ m ≤ 12 ∧ 1 ≤ d ≤ days_in_month y m)%Z.

(** The time [strptime] reads from the publication date of a record (0 when
    it reads none), and the records whose date is written zero-padded. *)
Definition pub_time (p : paper) : Z :=
  match strptime_published (p_published p) with
  | Ok t => t
  | Raise _ => 0%Z
  end.

Definition iso_published (p : paper) : Prop :=
  ∃ y m d, valid_date y m d ∧ p_published p = Some (iso_date y m d).

(** ** [efetch_pubmed]

    What the loop of [efetch_pubmed] reads from one [PubmedArticle] element:
    the PMID and ArticleTitle elements found, with their text; the text of
    each AbstractText element; for each Author element the text found for
    LastName and for Initials; for the PubDate element the text found for
    Year, Month and Day; and the text found for the Journal Title.  An
    element has a text or none; [findtext] gives [None] when it finds no
    element and the empty string for an element without text. *)
Record article : Type := Article {
  pmid_el : option (option string);
  title_el : option (option string);
  abstract_els : list (option string);
  author_els : list (option string * option string);
  date_el : option (option string * option string * option string);
  journal_title : option string
}.

(** [x or other] for [x] a string or [None]. *)
Definition or_else (x : option string) (other : string) : string :=
  match x with
  | Some s => if String.eqb s "" then other else s
  | None => other
  end.

Definition month_map : list (string * string) :=
  [("Jan", "01"); ("Feb", "02"); ("Mar", "03"); ("Apr", "04"); ("May", "05");
   ("Jun", "06"); ("Jul", "07"); ("Aug", "08"); ("Sep", "09"); ("Oct", "10");
   ("Nov", "11"); ("Dec", "12")].

(** [d.get(key, other)] for a dictionary written with distinct keys. *)
Fixpoint get_or (d : list (string * string)) (key other : string) : string :=
  match d with
  | [] => other
  | (k, v) :: rest => if String.eqb k key then v else get_or rest key other
  end.

(** [if len(s) == 1: s = "0" + s], on ASCII text. *)
Definition pad_one (s : string) : string :=
  if (String.length s =? 1)%nat then "0" +:+ s else s.

(** Lines 94-121: the publication date. *)
Definition pub_date_of
    (date_el : option (option string * option string * option string)) : string :=
  match date_el with
  | Some (year_text, month_text, day_text) =>
      let year := or_else year_text "" in
      let month := or_else month_text "01" in
      let day := or_else day_text "01" in
      let month := get_or month_map month month in
      let month := pad_one month in
      let day := pad_one day in
      if negb (String.eqb year "") then year +:+ "-" +:+ month +:+ "-" +:+ day
      else ""
  | None => ""
  end.

(** Lines 85-91: the author names. *)
Fixpoint authors_of (els : list (option string * option string)) : list string :=
  match els with
  | [] => []
  | (last_name, initials) :: rest =>
      let name := strip (or_else last_name "" +:+ " " +:+ or_else initials "") in
      if negb (String.eqb name "") then name :: authors_of rest
      else authors_of rest
  end.

(** Lines 79-83: the abstract. *)
Fixpoint abstract_texts (els : list (option string)) : list string :=
  match els with
  | [] => []
  | Some text :: rest =>
      if negb (String.eqb text "") then strip text :: abstract_texts rest
      else abstract_texts rest
  | None :: rest => abstract_texts rest
  end.

Definition title_of (el : option (option string)) : string :=
  match el with
  | Some (Some text) => if negb (String.eqb text "") then strip text else ""
  | _ => ""
  end.

(** The loop over the articles: an article without a PMID element is passed
    over; [pmid_el.text.strip()] raises for a PMID element without text. *)
Fixpoint efetch_loop (articles : list article) (papers : list paper)
  : result (list paper) :=
  match articles with
  | [] => Ok papers
  | a :: rest =>
      match pmid_el a with
      | None => efetch_loop rest papers
      | Some None => Raise AttributeError
      | Some (Some text) =>
          let pmid := strip text in
          let paper :=
            {| p_id := Some pmid;
               p_title := title_of (title_el a);
               p_abstract := String.concat " " (abstract_texts (abstract_els a));
               p_authors := authors_of (author_els a);
               p_published := Some (pub_date_of (date_el a));
               p_journal := strip (or_else (journal_title a) "");
               p_url := "https://pubmed.ncbi.nlm.nih.gov/" +:+ pmid +:+ "/";
               p_score := None |} in
          efetch_loop rest (papers ++ [paper])
      end
  end.

(** [http ids] is the request for the comma-separated identifiers and the
    reading of the answer as XML; both may raise. *)
Definition efetch_pubmed (pmids : list string)
    (http : string → result (list article)) : result (list paper) :=
  match pmids with
  | [] => Ok []
  | _ => articles ← http (String.concat "," pmids); efetch_loop articles []
  end.

(** The texts PubMed writes for a month and a day: the English abbreviation,
    the number, and the number with a leading zero. *)
Definition month_abbr (m : Z) : string :=
  nth (Z.to_nat (m - 1))
    ["Jan"; "Feb"; "Mar"; "Apr"; "May"; "Jun"; "Jul"; "Aug"; "Sep"; "Oct";
     "Nov"; "Dec"] "".

Definition decimal (n : Z) : string :=
  if (n <? 10)%Z then String (digit_char n) "" else pad2 n "".

(** The Author elements and the articles whose texts are ASCII. *)
Definition ascii_author (el : option string * option string) : bool :=
  ascii_text el.1 && ascii_text el.2.

Definition ascii_article (a : article) : bool :=
  ascii_text (default None (pmid_el a))
  && ascii_text (default None (title_el a))
  && forallb ascii_text (abstract_els a)
  && forallb ascii_author (author_els a)
  && match date_el a with
     | Some (year, month, day) => ascii_text year && ascii_text month && ascii_text day
     | None => true
     end
  && ascii_text (journal_title a).

(** The articles in which [article.find(".//PMID")] finds an element. *)
Definition has_pmid (a : article) : bool :=
  match pmid_el a with Some _ => true | None => false end.

(** An answer with a complete article, an article without PMID element and
    an article whose PMID element has no text. *)
Definition complete_article : article :=
  {| pmid_el := Some (Some " 38000001 ");
     title_el := Some (Some "An RNA base editor ");
     abstract_els := [Some "Background. "; None; Some "Results."];
     author_els := [(Some "Smith", Some "J"); (None, None); (Some "Li", None)];
     date_el := Some (Some "2024", Some "Mar", Some "5");
     journal_title := Some "Nature " |}.

Definition article_without_pmid : article :=
  {| pmid_el := None; title_el := Some (Some "Untitled"); abstract_els := [];
     author_els := []; date_el := None; journal_title := None |}.

Definition article_with_blank_pmid : article :=
  {| pmid_el := Some None; title_el := None; abstract_els := [];
     author_els := []; date_el := None; journal_title := None |}.

(** ** Replies of the service

    A reply that wraps its payload in a Markdown code fence, with or without
    a language tag on the opening line. *)
Definition fenced (tag payload : string) : string :=
  "```" +:+ tag +:+ newline +:+ payload +:+ newline +:+ "```".

(** The text between the braces of [first_payload]. *)
Definition score_body : string := dquote +:+ "score" +:+ dquote +:+ ": 85".

(** ** Articles with a full date

    An article whose PubDate names a day of the calendar, written as PubMed
    writes it; and a second complete article, dated earlier. *)
Definition well_dated (a : article) : Prop :=
  ∃ y m d ms ds,
    valid_date y m d ∧
    ms ∈ [month_abbr m; decimal m; pad2 m ""] ∧ ds ∈ [decimal d; pad2 d ""] ∧
    date_el a = Some (Some (pad4 y ""), Some ms, Some ds).

Definition earlier_article : article :=
  {| pmid_el := Some (Some "38000002");
     title_el := Some (Some "A Cas13 sensor");
     abstract_els := [];
     author_els := [(Some "Garcia", Some "M")];
     date_el := Some (Some "2024", Some "02", Some "28");
     journal_title := Some "Cell" |}.



(** The answer of PubMed to a request for the two complete articles. *)
Definition two_articles (ids : string) : result (list article) :=
  Ok [earlier_article; complete_article].

(** * Properties *)

(** ** The stable descending sort *)

Section sorted_reverse_facts.
Context {A K : Type} `{EqDecision K} (key : A → K) (ltb : K → K → bool).

Lemma insert_desc_perm x l : insert_desc key ltb x l ≡ₚ x :: l.
Proof.
  induction l as [|y l IH]; simpl; [done|].
  destruct (ltb (key x) (key y)); [|done].
  rewrite IH. apply Permutation_swap.
Qed.

Lemma sorted_reverse_perm l : sorted_reverse key ltb l ≡ₚ l.
Proof.
  induction l as [|x l IH]; simpl; [done|].
  by rewrite insert_desc_perm, IH.
Qed.

Hypothesis ltb_asym : ∀ a b, ltb a b = true → ltb b a = false.
Hypothesis nltb_trans :
  ∀ a b c, ltb a b = false → ltb b c = false → ltb a c = false.

Lemma ltb_irrefl a : ltb a a = false.
Proof.
  destruct (ltb a a) eqn:E; [|done].
  pose proof (ltb_asym a a E). congruence.
Qed.

Lemma insert_desc_sorted x l :
  desc_sorted key ltb l → desc_sorted key ltb (insert_desc key ltb x l).
Proof.
  unfold desc_sorted. induction 1 as [|y l Hl IH Hy]; simpl.
  - repeat constructor.
  - destruct (ltb (key x) (key y)) eqn:E.
    + constructor; [done|].
      rewrite insert_desc_perm. constructor; [by apply ltb_asym|done].
    + constructor; [by constructor|].
      constructor; [done|].
      eapply Forall_impl; [exact Hy|]. intros b Hb. by eapply nltb_trans.
Qed.

Lemma sorted_reverse_sorted l : desc_sorted key ltb (sorted_reverse key ltb l).
Proof.
  induction l as [|x l IH]; simpl; [constructor|].
  by apply insert_desc_sorted.
Qed.

(** Stability: the records of any one key come out in their input order. *)
Lemma insert_desc_stable k x l :
  filter (λ a, key a = k) (insert_desc key ltb x l)
  = filter (λ a, key a = k) (x :: l).
Proof.
  induction l as [|y l IH]; simpl; [done|].
  destruct (ltb (key x) (key y)) eqn:E; [|done].
  rewrite !filter_cons, IH, !filter_cons.
  destruct (decide (key y = k)) as [Hy|Hy], (decide (key x = k)) as [Hx|Hx];
    try done.
  rewrite Hx, Hy, ltb_irrefl in E. done.
Qed.

Lemma sorted_reverse_stable k l :
  filter (λ a, key a = k) (sorted_reverse key ltb l)
  = filter (λ a, key a = k) l.
Proof.
  induction l as [|x l IH]; simpl; [done|].
  by rewrite insert_desc_stable, !filter_cons, IH.
Qed.

Hypothesis ltb_total : ∀ a b, ltb a b = false → ltb b a = false → a = b.

Lemma desc_sorted_head_key x l y l' :
  desc_sorted key ltb (x :: l) → desc_sorted key ltb (y :: l') →
  (∀ k, filter (λ a, key a = k) (x :: l) = filter (λ a, key a = k) (y :: l')) →
  key x = key y.
Proof.
  intros Hs Hs' Hf.
  assert (Hin : ∀ (a : A) l1 l2,
    desc_sorted key ltb l1 → a ∈ l1 →
    (∀ k, filter (λ a, key a = k) l1 = filter (λ a, key a = k) l2) →
    a ∈ l2).
  { intros a l1 l2 _ Ha Hk.
    assert (a ∈ filter (λ b, key b = key a) l1) as Ha'
      by (apply list_elem_of_filter; done).
    rewrite Hk in Ha'. by apply list_elem_of_filter in Ha' as [_ ?]. }
  assert (Hx : x ∈ y :: l') by (eapply Hin; [exact Hs|left|done]).
  assert (Hy : y ∈ x :: l) by (eapply (Hin y (y :: l') (x :: l));
    [exact Hs'|left|done]).
  apply StronglySorted_inv in Hs as [_ Hxl], Hs' as [_ Hyl'].
  rewrite Forall_forall in Hxl, Hyl'.
  apply ltb_total.
  - apply elem_of_cons in Hy as [->|Hy]; [apply ltb_irrefl|].
    by apply Hxl.
  - apply elem_of_cons in Hx as [->|Hx]; [apply ltb_irrefl|].
    by apply Hyl'.
Qed.

(** A descending list with the per-key subsequences of [l] is
    [sorted_reverse l]: the stable descending sort is unique. *)
Lemma stable_desc_sorted_unique l1 l2 :
  desc_sorted key ltb l1 → desc_sorted key ltb l2 →
  (∀ k, filter (λ a, key a = k) l1 = filter (λ a, key a = k) l2) →
  l1 = l2.
Proof.
  revert l2. induction l1 as [|x l1 IH]; intros l2 Hs1 Hs2 Hf.
  - destruct l2 as [|y l2]; [done|].
    specialize (Hf (key y)). rewrite filter_cons in Hf.
    destruct (decide (key y = key y)); [|done]. by rewrite filter_nil in Hf.
  - destruct l2 as [|y l2].
    { specialize (Hf (key x)). rewrite filter_cons in Hf.
      destruct (decide (key x = key x)); [|done]. by rewrite filter_nil in Hf. }
    pose proof (desc_sorted_head_key _ _ _ _ Hs1 Hs2 Hf) as Hk.
    assert (x = y ∧ ∀ k, filter (λ a, key a = k) l1 = filter (λ a, key a = k) l2)
      as [-> Hf'].
    { split.
      - specialize (Hf (key x)). rewrite !filter_cons in Hf.
        destruct (decide (key x = key x)); [|done].
        destruct (decide (key y = key x)); [|congruence]. congruence.
      - intros k. specialize (Hf k). rewrite !filter_cons in Hf.
        destruct (decide (key x = k)), (decide (key y = k)); congruence. }
    f_equal. apply IH; [| |done].
    + by apply StronglySorted_inv in Hs1 as [? _].
    + by apply StronglySorted_inv in Hs2 as [? _].
Qed.

Lemma sorted_reverse_unique l l' :
  desc_sorted key ltb l' →
  (∀ k, filter (λ a, key a = k) l' = filter (λ a, key a = k) l) →
  l' = sorted_reverse key ltb l.
Proof.
  intros Hs Hf. apply stable_desc_sorted_unique; [done| |].
  - apply sorted_reverse_sorted.
  - intros k. by rewrite sorted_reverse_stable.
Qed.
End sorted_reverse_facts.


(** ** The ranking *)

Lemma Zltb_asym (a b : Z) : (a <? b)%Z = true → (b <? a)%Z = false.
Proof. lia. Qed.

Lemma Zltb_nlt_trans (a b c : Z) :
  (a <? b)%Z = false → (b <? c)%Z = false → (a <? c)%Z = false.
Proof. lia. Qed.

Lemma Zltb_total (a b : Z) : (a <? b)%Z = false → (b <? a)%Z = false → a = b.
Proof. lia. Qed.

Lemma rank_spec_perm scores recent : rank_spec scores recent ≡ₚ recent.
Proof. apply sorted_reverse_perm. Qed.

Lemma rank_spec_sorted scores recent :
  desc_sorted (effective_score scores) Z.ltb (rank_spec scores recent).
Proof. apply sorted_reverse_sorted; [apply Zltb_asym|apply Zltb_nlt_trans]. Qed.

Lemma rank_spec_stable scores recent k :
  filter (λ p, effective_score scores p = k) (rank_spec scores recent)
  = filter (λ p, effective_score scores p = k) recent.
Proof. apply sorted_reverse_stable, Zltb_asym. Qed.

Lemma rank_spec_unique scores recent l :
  desc_sorted (effective_score scores) Z.ltb l →
  (∀ k, filter (λ p, effective_score scores p = k) l
        = filter (λ p, effective_score scores p = k) recent) →
  l = rank_spec scores recent.
Proof.
  apply sorted_reverse_unique;
    [apply Zltb_asym|apply Zltb_nlt_trans|apply Zltb_total].
Qed.

(** [float] is exact on the integers up to 2^53 in magnitude. *)
Lemma nearest_double_small (a : Z) : (0 ≤ a ≤ 2 ^ 53)%Z → nearest_double a = a.
Proof.
  intros Ha. destruct (decide (a = 2 ^ 53)%Z) as [->|Hne]; [by vm_compute|].
  unfold nearest_double.
  assert (Hlog : (Z.log2 a ≤ 52)%Z).
  { destruct (decide (a = 0)%Z) as [->|H0]; [by vm_compute|].
    assert (Z.log2 a < 53)%Z; [|lia].
    apply Z.log2_lt_pow2; lia. }
  by rewrite (proj2 (Z.leb_le _ _)) by lia.
Qed.

Lemma py_float_exact (n : Z) : (Z.abs n ≤ 2 ^ 53)%Z → py_float n = Ok n.
Proof.
  intros Hn. unfold py_float.
  rewrite nearest_double_small by lia.
  assert (Hlt : (2 ^ 53 < 2 ^ 1024)%Z) by reflexivity.
  rewrite (proj2 (Z.leb_gt _ _)) by lia.
  f_equal. lia.
Qed.

Lemma paper_score_exact scores p :
  exact_floats scores → paper_score scores p = Ok (effective_score scores p).
Proof.
  intros Hexact. unfold paper_score, effective_score.
  destruct (p_id p) as [pid|]; [|done].
  destruct (scores !! pid) as [v|] eqn:Hv; [|done].
  apply py_float_exact. by apply (Hexact pid).
Qed.

Lemma float_key_exact scores p :
  exact_floats scores → float_key scores p = effective_score scores p.
Proof. intros H. unfold float_key. by rewrite paper_score_exact. Qed.

(** The sort on computed keys is the sort on the key function. *)
Lemma sort_keys_inv key l keyed :
  sort_keys key l = Ok keyed →
  keyed = map (λ p, (match key p with Ok k => k | Raise _ => 0%Z end, p)) l
  ∧ Forall (λ p, is_ok (key p) = true) l.
Proof.
  revert keyed. induction l as [|p l IH]; intros keyed; cbn [sort_keys].
  - by intros [= <-].
  - destruct (key p) as [k|e] eqn:Hk; [|done]. cbn.
    destruct (sort_keys key l) as [keyed'|e]; [|done]. cbn. intros [= <-].
    destruct (IH keyed' eq_refl) as [-> Hall].
    split; [by rewrite Hk|]. constructor; [by rewrite Hk|done].
Qed.

Lemma sort_keys_Ok key l :
  Forall (λ p, is_ok (key p) = true) l →
  sort_keys key l
  = Ok (map (λ p, (match key p with Ok k => k | Raise _ => 0%Z end, p)) l).
Proof.
  induction 1 as [|p l Hp Hl IH]; [done|]. cbn [sort_keys map].
  destruct (key p) as [k|e]; [|done]. cbn. by rewrite IH.
Qed.

Lemma sort_keys_Raise key l e :
  sort_keys key l = Raise e → Exists (λ p, key p = Raise e) l.
Proof.
  induction l as [|p l IH]; [done|]. cbn [sort_keys].
  destruct (key p) as [k|e'] eqn:Hk; cbn.
  - destruct (sort_keys key l) as [keyed|e'']; [done|]. cbn. intros [= ->].
    apply Exists_cons_tl. by apply IH.
  - intros [= ->]. by apply Exists_cons_hd.
Qed.

Lemma insert_desc_decorated (f : paper → Z) x l :
  insert_desc fst Z.ltb (f x, x) (map (λ p, (f p, p)) l)
  = map (λ p, (f p, p)) (insert_desc f Z.ltb x l).
Proof.
  induction l as [|y l IH]; [done|]. cbn [map insert_desc fst].
  destruct (f x <? f y)%Z; [|done]. cbn [map]. by rewrite IH.
Qed.

Lemma sorted_reverse_decorated (f : paper → Z) l :
  map snd (sorted_reverse fst Z.ltb (map (λ p, (f p, p)) l))
  = sorted_reverse f Z.ltb l.
Proof.
  assert (H : sorted_reverse fst Z.ltb (map (λ p, (f p, p)) l)
              = map (λ p, (f p, p)) (sorted_reverse f Z.ltb l)).
  { induction l as [|x l IH]; [done|].
    cbn [map sorted_reverse foldr]. unfold sorted_reverse in IH.
    by rewrite IH, insert_desc_decorated. }
  rewrite H, map_map. apply map_id.
Qed.

Lemma ranked_inv scores recent l :
  ranked scores recent = Ok l →
  l = sorted_reverse (float_key scores) Z.ltb recent
  ∧ Forall (λ p, is_ok (paper_score scores p) = true) recent.
Proof.
  unfold ranked.
  destruct (sort_keys (paper_score scores) recent) as [keyed|e] eqn:Hk; [|done].
  cbn. intros [= <-]. apply sort_keys_inv in Hk as [-> Hall].
  split; [|done]. apply (sorted_reverse_decorated (float_key scores)).
Qed.

Lemma ranked_keys_Ok scores recent :
  Forall (λ p, is_ok (paper_score scores p) = true) recent →
  ranked scores recent = Ok (sorted_reverse (float_key scores) Z.ltb recent).
Proof.
  intros Hall. unfold ranked. rewrite sort_keys_Ok by done. cbn. f_equal.
  apply (sorted_reverse_decorated (float_key scores)).
Qed.

Lemma sorted_reverse_ext {A : Type} (f g : A → Z) (l : list A) :
  (∀ x, f x = g x) → sorted_reverse f Z.ltb l = sorted_reverse g Z.ltb l.
Proof.
  intros Hfg. induction l as [|x l IH]; [done|].
  cbn [sorted_reverse foldr]. unfold sorted_reverse in IH. rewrite IH.
  generalize (foldr (insert_desc g Z.ltb) [] l). intros l'.
  induction l' as [|y l' IH']; [done|]. cbn [insert_desc].
  by rewrite !Hfg, IH'.
Qed.

(** On a cache whose scores [float] keeps, the ranking of [main] is the
    ranking of the design document. *)
Lemma ranked_exact scores recent :
  exact_floats scores → ranked scores recent = Ok (rank_spec scores recent).
Proof.
  intros Hexact. rewrite ranked_keys_Ok.
  - f_equal. apply sorted_reverse_ext. intros p. by apply float_key_exact.
  - apply Forall_forall. intros p _. by rewrite paper_score_exact.
Qed.

Lemma ranked_perm scores recent l : ranked scores recent = Ok l → l ≡ₚ recent.
Proof. intros [-> _]%ranked_inv. apply sorted_reverse_perm. Qed.

Lemma ranked_sorted scores recent l :
  ranked scores recent = Ok l → desc_sorted (float_key scores) Z.ltb l.
Proof.
  intros [-> _]%ranked_inv.
  apply sorted_reverse_sorted; [apply Zltb_asym|apply Zltb_nlt_trans].
Qed.

(** ** The walk of [select_unseen] *)

Lemma ids_of_nil : ids_of [] = ∅.
Proof. done. Qed.

Lemma ids_of_cons_Some p pid l :
  p_id p = Some pid → ids_of (p :: l) = {[pid]} ∪ ids_of l.
Proof. intros H. unfold ids_of. simpl. by rewrite H. Qed.

Lemma ids_of_cons_None p l : p_id p = None → ids_of (p :: l) = ids_of l.
Proof. intros H. unfold ids_of. simpl. by rewrite H. Qed.

Lemma elem_of_ids_of pid l :
  pid ∈ ids_of l ↔ ∃ p, p ∈ l ∧ p_id p = Some pid.
Proof.
  unfold ids_of. rewrite elem_of_list_to_set, list_elem_of_omap. naive_solver.
Qed.

Lemma eligible_Some seen p pid :
  p_id p = Some pid →
  eligible seen p = negb (py_not (Some pid) || bool_decide (pid ∈ seen)).
Proof.
  intros H. unfold eligible. rewrite H. by rewrite negb_orb.
Qed.

Lemma eligible_None seen p : p_id p = None → eligible seen p = false.
Proof. intros H. unfold eligible. by rewrite H. Qed.

Lemma eligible_spec seen p :
  eligible seen p = true ↔ ∃ pid, p_id p = Some pid ∧ pid ≠ "" ∧ pid ∉ seen.
Proof.
  unfold eligible, py_not. destruct (p_id p) as [pid|]; simpl.
  - rewrite andb_true_iff, !negb_true_iff, !bool_decide_eq_false. naive_solver.
  - naive_solver.
Qed.

(** The loop takes, of the records it would accept, as many as there is room
    for, and at least one: the length test follows the append. *)
Lemma select_unseen_loop_spec papers seen limit selected new_seen :
  select_unseen_loop papers seen limit selected new_seen =
    let room := Z.to_nat (Z.max 1 (limit - Z.of_nat (length selected))) in
    let accepted := take room (filter (λ p, eligible seen p = true) papers) in
    (selected ++ accepted, new_seen ∪ ids_of accepted).
Proof.
  revert selected new_seen.
  induction papers as [|p rest IH]; intros selected new_seen; cbv zeta; simpl.
  - rewrite filter_nil, take_nil, app_nil_r, ids_of_nil. f_equal. set_solver.
  - rewrite filter_cons. destruct (p_id p) as [pid|] eqn:Hid.
    + rewrite (eligible_Some _ _ _ Hid). cbn [py_not].
      destruct (bool_decide (pid = "") || bool_decide (pid ∈ seen)); cbn [negb].
      { rewrite decide_False by done. apply IH. }
      rewrite decide_True by done.
      rewrite length_app. simpl. case_bool_decide as Hlim.
      * replace (Z.to_nat (Z.max 1 (limit - Z.of_nat (length selected))))
          with 1%nat by lia.
        simpl. rewrite take_0. rewrite (ids_of_cons_Some _ _ _ Hid), ids_of_nil.
        f_equal. set_solver.
      * rewrite IH. simpl. rewrite length_app. simpl.
        replace (Z.to_nat (Z.max 1 (limit - Z.of_nat (length selected))))
          with (S (Z.to_nat (Z.max 1 (limit - Z.of_nat (length selected + 1)))))
          by lia.
        simpl. rewrite <- app_assoc. simpl.
        rewrite (ids_of_cons_Some _ _ _ Hid). f_equal. set_solver.
    + rewrite (eligible_None _ _ Hid). rewrite decide_False by done. apply IH.
Qed.

Lemma select_unseen_spec papers seen limit :
  select_unseen papers seen limit =
    let accepted :=
      take (Z.to_nat (Z.max 1 limit)) (filter (λ p, eligible seen p = true) papers) in
    (accepted, ids_of accepted).
Proof.
  unfold select_unseen. rewrite select_unseen_loop_spec. simpl.
  rewrite Z.sub_0_r. f_equal. set_solver.
Qed.

Lemma selected_eligible papers seen limit p :
  p ∈ (select_unseen papers seen limit).1 → p ∈ papers ∧ eligible seen p = true.
Proof.
  rewrite select_unseen_spec. simpl. intros Hp.
  apply elem_of_take in Hp as (i & Hp & _).
  apply list_elem_of_lookup_2 in Hp. by apply list_elem_of_filter in Hp as [? ?].
Qed.


Lemma walk_take_filter skip l n :
  walk skip l n = take n (filter (λ p, skip p = false) l).
Proof.
  revert n. induction l as [|c rest IH]; intros n; simpl.
  - rewrite filter_nil, take_nil. by destruct n.
  - rewrite filter_cons. destruct n as [|n].
    + by rewrite take_0.
    + destruct (skip c) eqn:E.
      * rewrite decide_False by done. apply IH.
      * rewrite decide_True by done. simpl. by rewrite IH.
Qed.

Lemma filter_eligible_negb seen (l : list paper) :
  filter (λ p, negb (eligible seen p) = false) l
  = filter (λ p, eligible seen p = true) l.
Proof.
  apply list_filter_iff. intros p. by rewrite negb_false_iff.
Qed.

Lemma eligible_in_ledger seen p :
  py_not (p_id p) = false → negb (eligible seen p) = in_ledger seen p.
Proof.
  unfold eligible, in_ledger. intros H.
  destruct (p_id p) as [pid|]; [|done].
  rewrite H. simpl. by rewrite negb_involutive.
Qed.

(** ** C10: the identifiers returned are those of the records selected *)

(** C10. For every candidate list, ledger and limit, [select_unseen] selects
    no record whose identifier is missing or empty, and the set of new
    identifiers it returns is exactly the set of identifiers of the records it
    selected. *)
Theorem select_unseen_new_seen_exact (papers : list paper) (seen : gset string)
    (limit : Z) :
  (∀ p, p ∈ (select_unseen papers seen limit).1 →
        ∃ pid, p_id p = Some pid ∧ pid ≠ "") ∧
  (∀ pid, pid ∈ (select_unseen papers seen limit).2 ↔
          ∃ p, p ∈ (select_unseen papers seen limit).1 ∧ p_id p = Some pid).
Proof.
  split.
  - intros p Hp. apply selected_eligible in Hp as [_ He].
    apply eligible_spec in He as (pid & Hid & Hne & _). by exists pid.
  - intros pid. rewrite select_unseen_spec. simpl. apply elem_of_ids_of.
Qed.

(** ** C1: the selector's algorithm *)

(** C1 (as amended). For a quota of at least one and a cache whose scores
    are at most 2^53 in magnitude, where the float key of the sort is the
    score itself, the selector's output is determined as follows: the
    candidates are stable-sorted by effective score (cached score, else 0),
    descending, so that candidates of equal score keep their input order,
    and this sorted list is the only one with these properties; the walk
    then skips every candidate whose identifier is missing, empty or in the
    ledger, and accepts the others until the quota is reached or the list is
    exhausted; the identifiers returned are those of the accepted records.
    Where every candidate has a non-empty identifier this is the algorithm
    of the design document, and in its scenario the output is [C1, C2]. *)
Theorem selector_algorithm (recent : list paper) (scores : gmap string Z)
    (seen : gset string) (limit : Z) (Hlimit : (1 ≤ limit)%Z)
    (Hexact : exact_floats scores) :
  ∃ sorted,
    ranked scores recent = Ok sorted ∧
    let accepted :=
      walk (λ p, negb (eligible seen p)) sorted (Z.to_nat limit) in
    sorted ≡ₚ recent ∧
    desc_sorted (effective_score scores) Z.ltb sorted ∧
    (∀ k, filter (λ p, effective_score scores p = k) sorted
          = filter (λ p, effective_score scores p = k) recent) ∧
    (∀ l, desc_sorted (effective_score scores) Z.ltb l →
          (∀ k, filter (λ p, effective_score scores p = k) l
                = filter (λ p, effective_score scores p = k) recent) →
          l = sorted) ∧
    select_unseen sorted seen limit = (accepted, ids_of accepted) ∧
    (Forall (λ p, py_not (p_id p) = false) recent →
     (select_unseen sorted seen limit).1 = selector_spec recent scores seen limit) ∧
    (l ← ranked scenario_scores scenario_recent; Ok (select_unseen l ∅ 2).1)
    = Ok [doc "C1" "2024-01-20"; doc "C2" "2024-01-19"].
Proof.
  exists (rank_spec scores recent). split; [by apply ranked_exact|].
  set (sorted := rank_spec scores recent). intros accepted.
  assert (Hsel : select_unseen sorted seen limit = (accepted, ids_of accepted)).
  { rewrite select_unseen_spec. cbv zeta. subst accepted.
    rewrite walk_take_filter, filter_eligible_negb.
    by replace (Z.max 1 limit) with limit by lia. }
  split; [apply rank_spec_perm|].
  split; [apply rank_spec_sorted|].
  split; [intros k; apply rank_spec_stable|].
  split; [intros l; apply rank_spec_unique|].
  split; [exact Hsel|].
  split; [|by vm_compute].
  intros Hids. rewrite Hsel. simpl. subst accepted. unfold selector_spec.
  rewrite !walk_take_filter. f_equal. fold sorted.
  assert (Hs : Forall (λ p, py_not (p_id p) = false) sorted).
  { subst sorted. by rewrite rank_spec_perm. }
  clear Hsel. induction Hs as [|p l Hp _ IH]; [done|].
  rewrite !filter_cons, IH, (eligible_in_ledger _ _ Hp).
  by destruct (in_ledger seen p).
Qed.

Lemma exact_floats_scenario : exact_floats scenario_scores.
Proof.
  unfold exact_floats, scenario_scores, scores_of. cbn [list_to_map foldr].
  repeat (apply map_Forall_insert_2; [by vm_compute|]).
  apply map_Forall_empty.
Qed.

Lemma selector_algorithm_witness :
  (1 ≤ 2)%Z ∧ exact_floats scenario_scores ∧
  ∃ sorted,
    ranked scenario_scores scenario_recent = Ok sorted ∧
    select_unseen sorted {["C1"]} 2
    = (walk (λ p, negb (eligible {["C1"]} p)) sorted 2,
       ids_of (walk (λ p, negb (eligible {["C1"]} p)) sorted 2)).
Proof.
  assert (Hlimit : (1 ≤ 2)%Z) by lia.
  split; [exact Hlimit|]. split; [exact exact_floats_scenario|].
  destruct (selector_algorithm scenario_recent scenario_scores {["C1"]} 2
              Hlimit exact_floats_scenario)
    as (sorted & Hranked & _ & _ & _ & _ & Hsel & _).
  exists sorted. split; [exact Hranked|exact Hsel].
Defined.

(** The design document's walk accepts every candidate that is not in the
    ledger; [select_unseen] also skips the candidate without an identifier. *)
Lemma selector_spec_counterexample :
  ranked ∅ [blank_id_doc] = Ok [blank_id_doc] ∧
  (select_unseen [blank_id_doc] ∅ 1).1 = [] ∧
  selector_spec [blank_id_doc] ∅ ∅ 1 = [blank_id_doc] ∧
  (select_unseen [blank_id_doc] ∅ 1).1 ≠ selector_spec [blank_id_doc] ∅ ∅ 1.
Proof. by vm_compute. Qed.

(** The second scenario of the design document: a candidate of score 99 that
    is in the ledger is skipped for one of score 10 that is not. *)
Lemma selector_skips_published :
  (l ← ranked (scores_of [("C4", 99%Z); ("C5", 10%Z)])
         [doc "C5" "2024-01-20"; doc "C4" "2024-01-19"];
   Ok (select_unseen l {["C4"]} 1).1)
  = Ok [doc "C5" "2024-01-20"].
Proof. by vm_compute. Qed.

(** Beyond 2^53 the sort is on the doubles, not on the scores: two cached
    scores that round to the same double are a tie, which leaves the two
    records in their input order, and a cached score beyond the range of the
    doubles ends the sort with [OverflowError]. *)
Lemma ranked_beyond_exact :
  ranked (scores_of [("b", 2 ^ 53); ("a", 2 ^ 53 + 1)]%Z)
    [doc "b" "2024-01-20"; doc "a" "2024-01-19"]
  = Ok [doc "b" "2024-01-20"; doc "a" "2024-01-19"] ∧
  rank_spec (scores_of [("b", 2 ^ 53); ("a", 2 ^ 53 + 1)]%Z)
    [doc "b" "2024-01-20"; doc "a" "2024-01-19"]
  = [doc "a" "2024-01-19"; doc "b" "2024-01-20"] ∧
  ranked (scores_of [("a", 2 ^ 1024)]%Z) [doc "a" "2024-01-19"]
  = Raise OverflowError.
Proof. by vm_compute. Qed.

(** ** The recency filter *)

Lemma string_compare_nlt_trans (a b c : string) :
  String.compare a b ≠ Lt → String.compare b c ≠ Lt → String.compare a c ≠ Lt.
Proof.
  revert b c. induction a as [|x a IH]; intros [|y b] [|z c]; simpl; try done.
  unfold Ascii.compare.
  destruct (N.compare_spec (N_of_ascii x) (N_of_ascii y)) as [Hxy|Hxy|Hxy];
    destruct (N.compare_spec (N_of_ascii y) (N_of_ascii z)) as [Hyz|Hyz|Hyz];
    destruct (N.compare_spec (N_of_ascii x) (N_of_ascii z)) as [Hxz|Hxz|Hxz];
    try done; try lia.
  apply IH.
Qed.

Lemma string_ltb_asym (a b : string) :
  String.ltb a b = true → String.ltb b a = false.
Proof.
  unfold String.ltb. rewrite (String.compare_antisym b a).
  by destruct (String.compare a b).
Qed.

Lemma string_ltb_nlt_trans (a b c : string) :
  String.ltb a b = false → String.ltb b c = false → String.ltb a c = false.
Proof.
  unfold String.ltb. intros Hab Hbc.
  pose proof (string_compare_nlt_trans a b c) as H.
  destruct (String.compare a b), (String.compare b c), (String.compare a c);
    try done; exfalso; by apply H.
Qed.

Lemma string_ltb_total (a b : string) :
  String.ltb a b = false → String.ltb b a = false → a = b.
Proof.
  unfold String.ltb. rewrite (String.compare_antisym b a).
  destruct (String.compare a b) eqn:E; try done.
  intros _ _. by apply String.compare_eq_iff.
Qed.

Lemma filter_recent_loop_spec threshold papers filtered :
  filter_recent_loop threshold papers filtered
  = filtered ++ filter (λ p, keeps threshold p = true) papers.
Proof.
  revert filtered. induction papers as [|p rest IH]; intros filtered; simpl.
  - by rewrite filter_nil, app_nil_r.
  - rewrite filter_cons.
    destruct (keeps threshold p) eqn:K; unfold keeps in K;
      destruct (strptime_published (p_published p)) as [pub_dt|e];
      try destruct (pub_dt <? threshold)%Z; try done.
    rewrite decide_True by done. rewrite IH. by rewrite <- app_assoc.
Qed.

Lemma keeps_spec threshold p :
  keeps threshold p = true ↔
  ∃ pub_dt, strptime_published (p_published p) = Ok pub_dt ∧ (threshold ≤ pub_dt)%Z.
Proof.
  unfold keeps. destruct (strptime_published (p_published p)) as [pub_dt|e].
  - rewrite negb_true_iff, Z.ltb_ge. split.
    + intros H. by exists pub_dt.
    + intros (dt & [= <-] & H). done.
  - split; [done|]. by intros (dt & [=] & _).
Qed.

Lemma filter_recent_Ok now papers days :
  (Z.abs days ≤ 999999999)%Z →
  datetime_in_range (now - days * us_per_day) = true →
  filter_recent now papers days
  = Ok (sorted_reverse published_key String.ltb
          (filter (λ p, keeps (now - days * us_per_day) p = true) papers)).
Proof.
  intros Hd Hr. unfold filter_recent, timedelta_days.
  rewrite (proj2 (Z.leb_le _ _) Hd). simpl.
  unfold datetime_sub. rewrite Hr. simpl.
  by rewrite filter_recent_loop_spec.
Qed.

Lemma filter_recent_inv now papers days recent :
  filter_recent now papers days = Ok recent →
  (Z.abs days ≤ 999999999)%Z ∧
  datetime_in_range (now - days * us_per_day) = true ∧
  recent = sorted_reverse published_key String.ltb
             (filter (λ p, keeps (now - days * us_per_day) p = true) papers).
Proof.
  unfold filter_recent, timedelta_days.
  destruct (Z.abs days <=? 999999999)%Z eqn:Hd; [|done]. simpl.
  unfold datetime_sub.
  destruct (datetime_in_range (now - days * us_per_day)) eqn:Hr; [|done]. simpl.
  rewrite filter_recent_loop_spec. intros [= <-].
  split; [lia|done].
Qed.

Lemma elem_of_filter_recent now papers days recent p :
  filter_recent now papers days = Ok recent →
  p ∈ recent ↔ p ∈ papers ∧ keeps (now - days * us_per_day) p = true.
Proof.
  intros (_ & _ & ->)%filter_recent_inv.
  rewrite sorted_reverse_perm, list_elem_of_filter. naive_solver.
Qed.

(** ** C7: what the recency filter returns *)

(** C7 (as amended). For every collection of records whose publication
    dates are ASCII texts and every window whose threshold [now - window] is
    a representable time, the recency filter returns, and what it returns is exactly the sub-collection of the records
    whose publication date parses and is not before the threshold: a record
    with a missing or unparseable date is dropped, a record dated before the
    threshold is dropped, and there is no upper bound, so a record dated after
    [now] is kept.  The result is sorted descending on the text of the date,
    records with the same text in their input order. *)
Theorem filter_recent_contract (now : Z) (papers : list paper) (days : Z)
    (Hascii : forallb ascii_published papers = true)
    (Hdays : (Z.abs days ≤ 999999999)%Z)
    (Hrange : datetime_in_range (now - days * us_per_day) = true) :
  ∃ recent,
    filter_recent now papers days = Ok recent ∧
    recent ≡ₚ filter (λ p, keeps (now - days * us_per_day) p = true) papers ∧
    (∀ p, p ∈ recent ↔
          p ∈ papers ∧
          ∃ pub_dt, strptime_published (p_published p) = Ok pub_dt ∧
                    (now - days * us_per_day ≤ pub_dt)%Z) ∧
    desc_sorted published_key String.ltb recent ∧
    (∀ k, filter (λ p, published_key p = k) recent
          = filter (λ p, published_key p = k)
              (filter (λ p, keeps (now - days * us_per_day) p = true) papers)).
Proof.
  eexists. split; [by apply filter_recent_Ok|].
  split; [apply sorted_reverse_perm|].
  split.
  { intros p. rewrite sorted_reverse_perm, list_elem_of_filter, keeps_spec.
    naive_solver. }
  split.
  - apply sorted_reverse_sorted; [apply string_ltb_asym|apply string_ltb_nlt_trans].
  - intros k. apply sorted_reverse_stable, string_ltb_asym.
Qed.

Lemma filter_recent_contract_witness :
  forallb ascii_published [doc "a" "2024-01-05"; doc "b" "2023-11-30"] = true ∧
  (Z.abs 30 ≤ 999999999)%Z ∧
  datetime_in_range (run_time - 30 * us_per_day) = true ∧
  ∃ recent,
    filter_recent run_time [doc "a" "2024-01-05"; doc "b" "2023-11-30"] 30
    = Ok recent ∧
    desc_sorted published_key String.ltb recent.
Proof.
  split; [reflexivity|]. split; [lia|]. split; [reflexivity|].
  destruct (filter_recent_contract run_time
              [doc "a" "2024-01-05"; doc "b" "2023-11-30"] 30)
    as (recent & Hrun & _ & _ & Hsorted & _); [reflexivity|lia|reflexivity|].
  exists recent. split; [exact Hrun|exact Hsorted].
Defined.

(** The filter keeps a record dated after [now], which the window of the
    design document excludes; and a window too long for [timedelta] makes it
    raise. *)
Lemma filter_recent_counterexample :
  filter_recent run_time [future_doc] 30 = Ok [future_doc] ∧
  (∃ pub_dt, strptime_published (p_published future_doc) = Ok pub_dt ∧
             ¬ in_window_spec run_time 30 pub_dt) ∧
  filter_recent run_time [future_doc] 1000000000 = Raise OverflowError.
Proof.
  split; [by vm_compute|]. split; [|by vm_compute].
  eexists. split; [by vm_compute|].
  unfold in_window_spec. vm_compute. intros [_ H]. by apply H.
Qed.

(** The order is that of the text: a date written without its leading zero
    sorts above a later date written with it. *)
Lemma filter_recent_orders_text :
  filter_recent run_time [doc "b" "2024-01-25"; doc "a" "2024-1-20"] 30
  = Ok [doc "a" "2024-1-20"; doc "b" "2024-01-25"].
Proof. by vm_compute. Qed.

(** ** Loading the stores *)

Lemma load_seen_ids_total f : load_seen_ids f = Ok (seen_of f).
Proof.
  unfold seen_of. destruct f as [| |[items|]]; reflexivity.
Qed.

Lemma int_values_fmap_Some (scores : gmap string Z) :
  int_values (Some <$> scores) = Ok scores.
Proof.
  unfold int_values. rewrite bool_decide_eq_true_2.
  - f_equal. apply map_eq. intros k.
    rewrite lookup_omap, lookup_fmap. by destruct (scores !! k).
  - intros k v. rewrite lookup_fmap. destruct (scores !! k); naive_solver.
Qed.

Lemma load_scores_total f : load_scores f = Ok (cache_of f).
Proof.
  unfold cache_of. destruct f as [| |[members|]]; try reflexivity.
  unfold load_scores. simpl. by destruct (int_values members).
Qed.

Lemma insert_asc_perm x l : insert_asc x l ≡ₚ x :: l.
Proof.
  induction l as [|y l IH]; simpl; [done|].
  destruct (String.ltb y x); [|done].
  rewrite IH. apply Permutation_swap.
Qed.

Lemma sorted_strings_perm l : sorted_strings l ≡ₚ l.
Proof.
  induction l as [|x l IH]; simpl; [done|].
  by rewrite insert_asc_perm, IH.
Qed.

Lemma seen_of_save_seen_ids seen f : seen_of (save_seen_ids seen f) = seen.
Proof.
  unfold seen_of, save_seen_ids, load_seen_ids. simpl.
  apply set_eq. intros x.
  by rewrite elem_of_list_to_set, sorted_strings_perm, elem_of_elements.
Qed.

Lemma cache_of_save_scores scores f : cache_of (save_scores scores f) = scores.
Proof.
  unfold cache_of, save_scores, load_scores. simpl.
  by rewrite int_values_fmap_Some.
Qed.

(** ** C5: saving is in place *)

(** C5 (as amended). A commit to the ledger, and likewise a save of the cache,
    rewrites the canonical file in place: opening it for writing truncates it,
    and only then is the merged content written.  Run to its end, the save
    leaves exactly the merged content, which the next load reads back; a crash
    after the open leaves a truncated file whatever the prior content was, and
    the next load reads that as the empty ledger or cache. *)
Theorem save_in_place (seen : gset string) (scores : gmap string Z)
    (f : stored ledger_doc) (g : stored cache_doc) :
  crash_states f (save_seen_ids_ops seen)
  = [f; Invalid; Document (LedgerList (sorted_strings (elements seen)))] ∧
  load_seen_ids (save_seen_ids seen f) = Ok seen ∧
  load_seen_ids (run_ops f (take 1 (save_seen_ids_ops seen))) = Ok ∅ ∧
  crash_states g (save_scores_ops scores)
  = [g; Invalid; Document (CacheDict (Some <$> scores))] ∧
  load_scores (save_scores scores g) = Ok scores ∧
  load_scores (run_ops g (take 1 (save_scores_ops scores))) = Ok ∅.
Proof.
  split; [reflexivity|].
  split; [by rewrite load_seen_ids_total, seen_of_save_seen_ids|].
  split; [reflexivity|].
  split; [reflexivity|].
  split; [by rewrite load_scores_total, cache_of_save_scores|reflexivity].
Qed.

(** With the ledger holding ["1"], a crash during the commit of ["1"; "2"]
    can leave a store that is neither; likewise for the cache. *)
Lemma save_not_atomic :
  ¬ crash_atomic (Document (LedgerList ["1"]))
      (save_seen_ids_ops {["1"; "2"]}) ∧
  ¬ crash_atomic (Document (CacheDict {["1" := Some 90%Z]}))
      (save_scores_ops (<["2" := 40%Z]> {["1" := 90%Z]})).
Proof.
  split; intros H.
  - destruct (H Invalid) as [?|?]; [|done|done].
    unfold crash_states. simpl. apply elem_of_cons. right. apply elem_of_cons. by left.
  - destruct (H Invalid) as [?|?]; [|done|done].
    unfold crash_states. simpl. apply elem_of_cons. right. apply elem_of_cons. by left.
Qed.

(** ** The scoring pass *)

Lemma scoring_loop_inv score recent scores calls n :
  ∃ new,
    (scoring_loop score recent scores calls n).1.2 = calls ++ new ∧
    scores ⊆ (scoring_loop score recent scores calls n).1.1 ∧
    Forall (λ p, ∃ pid, p_id p = Some pid ∧ pid ≠ "" ∧ scores !! pid = None) new.
Proof.
  revert scores calls n.
  induction recent as [|p rest IH]; intros scores calls n; simpl.
  - exists []. by rewrite app_nil_r.
  - destruct (p_id p) as [pid|] eqn:Hid; [|apply IH].
    destruct (bool_decide (pid = "")) eqn:Hempty; simpl; [apply IH|].
    apply bool_decide_eq_false in Hempty.
    case_bool_decide as Hin; [apply IH|].
    assert (Hnone : scores !! pid = None).
    { destruct (scores !! pid) eqn:E; [|done]. exfalso. apply Hin. by eexists. }
    destruct (score (length calls) p) as [s|].
    + destruct (IH (<[pid := s]> scores) (calls ++ [p]) (S n))
        as (new & Hcalls & Hsub & Hnew).
      exists (p :: new). split; [by rewrite Hcalls, <- app_assoc|].
      assert (scores ⊆ <[pid := s]> scores) as Hins by by apply insert_subseteq.
      split; [by etrans|].
      constructor; [by exists pid|].
      eapply Forall_impl; [exact Hnew|].
      intros q (qid & ? & ? & Hq). exists qid. split_and!; [done..|].
      by eapply lookup_weaken_None.
    + destruct (IH scores (calls ++ [p]) n) as (new & Hcalls & Hsub & Hnew).
      exists (p :: new). split; [by rewrite Hcalls, <- app_assoc|].
      split; [done|]. constructor; [by exists pid|done].
Qed.

(** ** One run *)

Lemma scoring_pass_eq i recent d :
  scoring_pass i recent (cache_of (scores_json d)) d
  = (scored i recent (cache_of (scores_json d)),
     {| seen_ids_json := seen_ids_json d;
        scores_json := scores_json_after i recent (scores_json d);
        papers_dir := papers_dir d |}).
Proof.
  unfold scoring_pass, scored, scores_json_after.
  destruct (client i) as [score|]; [|by destruct d].
  destruct (scoring_loop score recent (cache_of (scores_json d)) [] 0)
    as [[scores' calls] new_scores]. cbn [fst snd].
  destruct (bool_decide (new_scores ≠ 0%nat)); [done|by destruct d].
Qed.

Lemma main_unfold i d recent :
  filter_recent (utcnow i) (fetched i) 30 = Ok recent →
  main i d =
    (l ← ranked (scored i recent (cache_of (scores_json d))) recent;
     let sel := select_unseen l (seen_of (seen_ids_json d))
                  (default 5%Z (max_papers_per_day i)) in
     Ok {| seen_ids_json :=
             if bool_decide (sel.2 ≠ ∅)
             then save_seen_ids (seen_of (seen_ids_json d) ∪ sel.2)
                    (seen_ids_json d)
             else seen_ids_json d;
           scores_json := scores_json_after i recent (scores_json d);
           papers_dir :=
             <[today i :=
                 map (attach_score (scored i recent (cache_of (scores_json d))))
                     sel.1]> (papers_dir d) |}).
Proof.
  intros Hrecent. unfold main.
  rewrite Hrecent, load_scores_total, load_seen_ids_total. cbn [mbind result_bind].
  rewrite scoring_pass_eq.
  destruct (ranked (scored i recent (cache_of (scores_json d))) recent) as [l|e];
    [|done].
  cbn [mbind result_bind].
  destruct (select_unseen l (seen_of (seen_ids_json d))
              (default 5%Z (max_papers_per_day i))) as [sel new_seen].
  cbn. by destruct (bool_decide (new_seen ≠ ∅)).
Qed.

Lemma ranking_Ok i recent d l :
  ranked (scored i recent (cache_of (scores_json d))) recent = Ok l →
  ranking i recent d = l.
Proof. intros H. unfold ranking. by rewrite H. Qed.

Lemma main_Ok i d recent l :
  filter_recent (utcnow i) (fetched i) 30 = Ok recent →
  ranked (scored i recent (cache_of (scores_json d))) recent = Ok l →
  main i d =
    Ok {| seen_ids_json :=
            if bool_decide ((selection i recent d).2 ≠ ∅)
            then save_seen_ids
                   (seen_of (seen_ids_json d) ∪ (selection i recent d).2)
                   (seen_ids_json d)
            else seen_ids_json d;
          scores_json := scores_json_after i recent (scores_json d);
          papers_dir :=
            <[today i :=
                map (attach_score (scored i recent (cache_of (scores_json d))))
                    (selection i recent d).1]> (papers_dir d) |}.
Proof.
  intros Hrecent Hranked. rewrite (main_unfold _ _ _ Hrecent), Hranked.
  unfold selection. by rewrite (ranking_Ok _ _ _ _ Hranked).
Qed.

Lemma main_Raise i d e :
  filter_recent (utcnow i) (fetched i) 30 = Raise e → main i d = Raise e.
Proof. intros H. unfold main. by rewrite H. Qed.

Lemma main_Raise_ranked i d recent e :
  filter_recent (utcnow i) (fetched i) 30 = Ok recent →
  ranked (scored i recent (cache_of (scores_json d))) recent = Raise e →
  main i d = Raise e.
Proof. intros Hrecent Hranked. by rewrite (main_unfold _ _ _ Hrecent), Hranked. Qed.

(** A run that completes: the recency filter and the ranking returned. *)
Lemma main_inv i d d' :
  main i d = Ok d' →
  ∃ recent l,
    filter_recent (utcnow i) (fetched i) 30 = Ok recent ∧
    ranked (scored i recent (cache_of (scores_json d))) recent = Ok l ∧
    d' = {| seen_ids_json :=
              if bool_decide ((selection i recent d).2 ≠ ∅)
              then save_seen_ids
                     (seen_of (seen_ids_json d) ∪ (selection i recent d).2)
                     (seen_ids_json d)
              else seen_ids_json d;
            scores_json := scores_json_after i recent (scores_json d);
            papers_dir :=
              <[today i :=
                  map (attach_score (scored i recent (cache_of (scores_json d))))
                      (selection i recent d).1]> (papers_dir d) |}.
Proof.
  intros Hrun.
  destruct (filter_recent (utcnow i) (fetched i) 30) as [recent|e] eqn:Hrecent.
  2: { by rewrite (main_Raise _ _ _ Hrecent) in Hrun. }
  destruct (ranked (scored i recent (cache_of (scores_json d))) recent)
    as [l|e] eqn:Hranked.
  2: { by rewrite (main_Raise_ranked _ _ _ _ Hrecent Hranked) in Hrun. }
  rewrite (main_Ok _ _ _ _ Hrecent Hranked) in Hrun. injection Hrun as <-.
  by exists recent, l.
Qed.

Lemma main_is_ok i d :
  is_ok (main i d)
  = match filter_recent (utcnow i) (fetched i) 30 with
    | Ok recent => is_ok (ranked (scored i recent (cache_of (scores_json d))) recent)
    | Raise _ => false
    end.
Proof.
  destruct (filter_recent (utcnow i) (fetched i) 30) as [recent|e] eqn:H.
  - destruct (ranked (scored i recent (cache_of (scores_json d))) recent)
      as [l|e] eqn:Hranked.
    + by rewrite (main_Ok _ _ _ _ H Hranked).
    + by rewrite (main_Raise_ranked _ _ _ _ H Hranked).
  - by rewrite (main_Raise _ _ _ H).
Qed.

(** What a run leaves when the ranking raises: the cache file of the scoring
    pass, and nothing else changed. *)
Lemma run_Raise_ranked d i recent e :
  filter_recent (utcnow i) (fetched i) 30 = Ok recent →
  ranked (scored i recent (cache_of (scores_json d))) recent = Raise e →
  run d i = {| seen_ids_json := seen_ids_json d;
               scores_json := scores_json_after i recent (scores_json d);
               papers_dir := papers_dir d |}.
Proof.
  intros Hrecent Hranked. unfold run.
  rewrite (main_Raise_ranked _ _ _ _ Hrecent Hranked), Hrecent, load_scores_total.
  by rewrite scoring_pass_eq.
Qed.

Lemma run_Raise d i e :
  filter_recent (utcnow i) (fetched i) 30 = Raise e → run d i = d.
Proof. intros Hrecent. unfold run. by rewrite (main_Raise _ _ _ Hrecent), Hrecent. Qed.

Lemma attach_score_id scores p : p_id (attach_score scores p) = p_id p.
Proof.
  unfold attach_score. destruct (p_id p) as [pid|] eqn:E; [|done].
  by destruct (scores !! pid).
Qed.

Lemma ids_of_attach_score scores l : ids_of (map (attach_score scores) l) = ids_of l.
Proof.
  induction l as [|p l IH]; [done|]. cbn [map].
  destruct (p_id p) as [pid|] eqn:E.
  - rewrite (ids_of_cons_Some _ pid) by (by rewrite attach_score_id).
    by rewrite (ids_of_cons_Some p pid), IH.
  - rewrite ids_of_cons_None by (by rewrite attach_score_id).
    by rewrite (ids_of_cons_None p), IH.
Qed.

Lemma selection_new_seen i recent d :
  (selection i recent d).2 = ids_of (selection i recent d).1.
Proof. unfold selection. by rewrite select_unseen_spec. Qed.

Lemma selection_unseen i recent d :
  ids_of (selection i recent d).1 ## seen_of (seen_ids_json d).
Proof.
  intros pid (p & Hp & Hid)%elem_of_ids_of Hseen.
  apply selected_eligible in Hp as [_ (qid & Hq & _ & Hnot)%eligible_spec].
  congruence.
Qed.

(** ** C6: the score cache is write-once *)

Lemma main_keeps_cached i d d' pid s :
  cache_of (scores_json d) !! pid = Some s →
  main i d = Ok d' →
  cache_of (scores_json d') !! pid = Some s.
Proof.
  intros Hcached Hmain.
  apply main_inv in Hmain as (recent & rk & Hrecent & Hranked & ->).
  cbn [scores_json]. unfold scores_json_after.
  destruct (client i) as [score|]; [|done].
  case_bool_decide; [|done].
  rewrite cache_of_save_scores.
  destruct (scoring_loop_inv score recent (cache_of (scores_json d)) [] 0)
    as (_ & _ & Hsub & _).
  by eapply lookup_weaken.
Qed.

(** C6. For every oracle, whatever it would answer, an identifier that has a
    cached score when the scoring pass starts is never submitted to the
    oracle and its cached value is the same after the pass; the cache file a
    run leaves holds the same value for it. *)
Theorem score_cache_write_once (score : nat → paper → option Z)
    (recent : list paper) (scores : gmap string Z) (pid : string) (s : Z)
    (Hcached : scores !! pid = Some s) :
  (scoring_loop score recent scores [] 0).1.1 !! pid = Some s ∧
  (∀ p, p ∈ (scoring_loop score recent scores [] 0).1.2 → p_id p ≠ Some pid) ∧
  (∀ i d d', cache_of (scores_json d) = scores → main i d = Ok d' →
             cache_of (scores_json d') !! pid = Some s).
Proof.
  destruct (scoring_loop_inv score recent scores [] 0) as (new & Hcalls & Hsub & Hnew).
  split_and!.
  - by eapply lookup_weaken.
  - rewrite Hcalls. simpl. intros p Hp Hid.
    rewrite Forall_forall in Hnew.
    destruct (Hnew p Hp) as (qid & Hq & _ & Hnone). congruence.
  - intros i d d' <- Hmain. by eapply main_keeps_cached.
Qed.

Lemma score_cache_write_once_witness :
  scenario_scores !! "C1" = Some 90%Z ∧
  (scoring_loop fickle_oracle (doc "C9" "2024-01-21" :: scenario_recent)
     scenario_scores [] 0).1.1 !! "C1" = Some 90%Z.
Proof.
  split; [reflexivity|].
  apply (score_cache_write_once fickle_oracle
           (doc "C9" "2024-01-21" :: scenario_recent) scenario_scores "C1" 90).
  reflexivity.
Defined.

Lemma seen_of_after_commit f (new_seen : gset string) :
  seen_of (if bool_decide (new_seen ≠ ∅)
           then save_seen_ids (seen_of f ∪ new_seen) f
           else f)
  = seen_of f ∪ new_seen.
Proof.
  case_bool_decide as Hne.
  - apply seen_of_save_seen_ids.
  - assert (new_seen = ∅) as -> by (destruct (decide (new_seen = ∅)); done).
    by rewrite (right_id_L ∅ (∪)).
Qed.

(** ** C2: no identifier in two snapshots *)

Lemma run_preserves_dedup d i :
  snapshots_in_ledger d → snapshots_disjoint d →
  snapshots_in_ledger (run d i) ∧ snapshots_disjoint (run d i) ∧
  seen_of (seen_ids_json d) ⊆ seen_of (seen_ids_json (run d i)).
Proof.
  intros Hin Hdis.
  destruct (filter_recent (utcnow i) (fetched i) 30) as [recent|e] eqn:Hrecent.
  2: { by rewrite (run_Raise _ _ _ Hrecent). }
  destruct (ranked (scored i recent (cache_of (scores_json d))) recent)
    as [rk|e] eqn:Hranked.
  2: { rewrite (run_Raise_ranked _ _ _ _ Hrecent Hranked).
       split_and!; [exact Hin|exact Hdis|done]. }
  unfold run. rewrite (main_Ok _ _ _ _ Hrecent Hranked).
  pose proof (selection_unseen i recent d) as Hunseen.
  pose proof (selection_new_seen i recent d) as Hnew.
  set (sel := selection i recent d) in *.
  set (scores := scored i recent (cache_of (scores_json d))).
  split_and!.
  - intros date s. cbn [papers_dir seen_ids_json].
    rewrite seen_of_after_commit. intros Hs.
    destruct (decide (today i = date)) as [<-|Hne].
    + rewrite lookup_insert_eq in Hs. injection Hs as <-.
      rewrite ids_of_attach_score, Hnew. set_solver.
    + rewrite lookup_insert_ne in Hs by done.
      specialize (Hin date s Hs). set_solver.
  - intros date1 date2 s1 s2 Hne. cbn [papers_dir].
    destruct (decide (today i = date1)) as [<-|Hne1];
      destruct (decide (today i = date2)) as [<-|Hne2]; [done| | |].
    + rewrite lookup_insert_eq, lookup_insert_ne by done.
      intros [= <-] Hs2. rewrite ids_of_attach_score.
      specialize (Hin _ _ Hs2). set_solver.
    + rewrite lookup_insert_eq, lookup_insert_ne by done.
      intros Hs1 [= <-]. rewrite ids_of_attach_score.
      specialize (Hin _ _ Hs1). set_solver.
    + rewrite !lookup_insert_ne by done. by apply Hdis.
  - cbn [seen_ids_json]. rewrite seen_of_after_commit. set_solver.
Qed.

Lemma runs_preserve_dedup inputs d :
  snapshots_in_ledger d → snapshots_disjoint d →
  snapshots_in_ledger (runs d inputs) ∧ snapshots_disjoint (runs d inputs) ∧
  seen_of (seen_ids_json d) ⊆ seen_of (seen_ids_json (runs d inputs)).
Proof.
  revert d. induction inputs as [|i inputs IH]; intros d Hin Hdis; simpl.
  - done.
  - destruct (run_preserves_dedup d i Hin Hdis) as (Hin' & Hdis' & Hsub).
    destruct (IH (run d i) Hin' Hdis') as (? & ? & ?).
    split_and!; [done..|]. by etrans.
Qed.

(** C2. Starting from an installation without snapshots, whatever the ledger
    and cache files hold, after every sequence of runs the snapshots of two
    distinct dates share no identifier: every identifier of a snapshot is in
    the ledger, the ledger only grows, and the selector of a later run skips
    what the ledger holds. *)
Theorem snapshots_never_share_ids (d0 : disk) (inputs : list run_input)
    (Hfresh : papers_dir d0 = ∅) :
  snapshots_disjoint (runs d0 inputs) ∧
  snapshots_in_ledger (runs d0 inputs) ∧
  seen_of (seen_ids_json d0) ⊆ seen_of (seen_ids_json (runs d0 inputs)).
Proof.
  destruct (runs_preserve_dedup inputs d0) as (Hin & Hdis & Hsub).
  - intros date s. by rewrite Hfresh, lookup_empty.
  - intros date1 date2 s1 s2 _. by rewrite Hfresh, lookup_empty.
  - done.
Qed.

Lemma snapshots_never_share_ids_witness :
  papers_dir fresh_disk = ∅ ∧
  snapshots_disjoint
    (runs fresh_disk [run_on "2024-01-31" 2; run_on "2024-02-01" 2]).
Proof.
  split; [reflexivity|].
  apply (snapshots_never_share_ids fresh_disk
           [run_on "2024-01-31" 2; run_on "2024-02-01" 2]).
  reflexivity.
Defined.

(** ** C4: a second run in immediate succession *)

Lemma filter_all {A : Type} (P : A → Prop) `{∀ x, Decision (P x)} (l : list A) :
  Forall P l → filter P l = l.
Proof.
  induction 1 as [|x l Hx Hl IH]; [done|].
  by rewrite filter_cons_True, IH.
Qed.

Lemma filter_none {A : Type} (P : A → Prop) `{∀ x, Decision (P x)} (l : list A) :
  (∀ x, x ∈ l → ¬ P x) → filter P l = [].
Proof.
  induction l as [|x l IH]; intros Hl; [done|].
  rewrite filter_cons_False by (apply Hl; left).
  apply IH. intros y Hy. apply Hl. by right.
Qed.

Lemma keeps_mono t1 t2 p : (t1 ≤ t2)%Z → keeps t2 p = true → keeps t1 p = true.
Proof.
  rewrite !keeps_spec. intros Ht (dt & Hdt & Hle). exists dt. split; [done|lia].
Qed.

Lemma filter_recent_mono now1 now2 papers days recent1 recent2 p :
  (now1 ≤ now2)%Z →
  filter_recent now1 papers days = Ok recent1 →
  filter_recent now2 papers days = Ok recent2 →
  p ∈ recent2 → p ∈ recent1.
Proof.
  intros Hnow H1 H2.
  rewrite (elem_of_filter_recent _ _ _ _ _ H1), (elem_of_filter_recent _ _ _ _ _ H2).
  intros [Hp Hk]. split; [done|]. eapply keeps_mono; [|exact Hk]. lia.
Qed.

Lemma eligible_union seen (X : gset string) p :
  eligible (seen ∪ X) p = eligible seen p && negb (in_ledger X p).
Proof.
  unfold eligible, in_ledger. destruct (p_id p) as [pid|]; [|by rewrite andb_false_r].
  destruct (py_not (Some pid)); [done|]. cbn [negb andb].
  repeat case_bool_decide; set_solver.
Qed.

Lemma filter_eligible_union seen (X : gset string) (l : list paper) :
  filter (λ p, eligible (seen ∪ X) p = true) l
  = filter (λ p, in_ledger X p = false)
      (filter (λ p, eligible seen p = true) l).
Proof.
  rewrite list_filter_filter. apply list_filter_iff. intros p.
  rewrite eligible_union, andb_true_iff, negb_true_iff. naive_solver.
Qed.

Lemma NoDup_omap_filter {A B : Type} (f : A → option B) (P : A → Prop)
    `{∀ x, Decision (P x)} (l : list A) :
  NoDup (omap f l) → NoDup (omap f (filter P l)).
Proof.
  induction l as [|x l IH]; [done|]. rewrite filter_cons. intros Hnd.
  assert (Hl : NoDup (omap f l)).
  { cbn in Hnd. destruct (f x); [by apply NoDup_cons in Hnd as [_ ?]|done]. }
  destruct (decide (P x)); [|by apply IH].
  cbn in Hnd |- *. destruct (f x) as [y|]; [|by apply IH].
  apply NoDup_cons in Hnd as [Hnot _]. apply NoDup_cons. split; [|by apply IH].
  intros Hin. apply Hnot. apply list_elem_of_omap in Hin as (z & Hz & Hfz).
  apply list_elem_of_omap. exists z. split; [|done].
  by apply list_elem_of_filter in Hz as [_ ?].
Qed.

(** Of a list without repeated identifiers, the records whose identifier is
    not among those of a first part are the rest. *)
Lemma filter_not_in_first (first later : list paper) :
  Forall (λ p, is_Some (p_id p)) first →
  NoDup (omap p_id (first ++ later)) →
  filter (λ p, in_ledger (ids_of first) p = false) (first ++ later) = later.
Proof.
  intros Hsome Hnd. rewrite filter_app.
  rewrite omap_app in Hnd. apply NoDup_app in Hnd as (_ & Hdisj & _).
  rewrite (filter_none _ first), app_nil_l.
  - apply filter_all. apply Forall_forall. intros p Hp. unfold in_ledger.
    destruct (p_id p) as [pid|] eqn:Hid; [|done].
    apply bool_decide_eq_false. intros (q & Hq & Hqid)%elem_of_ids_of.
    apply (Hdisj pid).
    + apply list_elem_of_omap. by exists q.
    + apply list_elem_of_omap. by exists p.
  - intros p Hp. rewrite Forall_forall in Hsome.
    destruct (Hsome p Hp) as [pid Hid]. unfold in_ledger. rewrite Hid.
    rewrite bool_decide_eq_true_2; [done|].
    apply elem_of_ids_of. by exists p.
Qed.

(** C4 (as amended). When a run is followed at once by a second run over the
    same fetched records, no identifier of the first snapshot is in the
    second; the second snapshot is empty when the first run had room, within
    its quota (a quota below one counts as one), for every candidate it could
    accept.  Otherwise it holds the
    next candidates in rank order: the first, up to the quota, of the second
    run's ranking whose identifier is present, not empty and not in the
    ledger as the first run left it; and where the second run ranks as the
    first did, over records of distinct identifiers, these are the
    acceptable candidates that follow, in the first run's ranking, the ones
    the first run took. *)
Theorem second_run_excludes_first (i1 i2 : run_input) (d0 d1 d2 : disk)
    (Hfetched : fetched i2 = fetched i1)
    (Hnow : (utcnow i1 ≤ utcnow i2)%Z)
    (Hrun1 : main i1 d0 = Ok d1) (Hrun2 : main i2 d1 = Ok d2) :
  ∃ recent recent2 rk1 rk2 s1 s2,
    filter_recent (utcnow i1) (fetched i1) 30 = Ok recent ∧
    filter_recent (utcnow i2) (fetched i2) 30 = Ok recent2 ∧
    ranked (scored i1 recent (cache_of (scores_json d0))) recent = Ok rk1 ∧
    ranked (scored i2 recent2 (cache_of (scores_json d1))) recent2 = Ok rk2 ∧
    papers_dir d1 !! today i1 = Some s1 ∧
    papers_dir d2 !! today i2 = Some s2 ∧
    ids_of s1 ## ids_of s2 ∧
    ((length (filter (λ p, eligible (seen_of (seen_ids_json d0)) p = true) recent)
      ≤ Z.to_nat (Z.max 1 (default 5%Z (max_papers_per_day i1))))%nat →
     s2 = []) ∧
    s2 = map (attach_score (scored i2 recent2 (cache_of (scores_json d1))))
           (take (Z.to_nat (Z.max 1 (default 5%Z (max_papers_per_day i2))))
              (filter (λ p, eligible (seen_of (seen_ids_json d0) ∪ ids_of s1) p = true)
                 rk2)) ∧
    (rk2 = rk1 → NoDup (omap p_id rk1) →
     ∃ first later,
       filter (λ p, eligible (seen_of (seen_ids_json d0)) p = true) rk1
       = first ++ later ∧
       s1 = map (attach_score (scored i1 recent (cache_of (scores_json d0)))) first ∧
       s2 = map (attach_score (scored i2 recent2 (cache_of (scores_json d1))))
              (take (Z.to_nat (Z.max 1 (default 5%Z (max_papers_per_day i2))))
                 later)).
Proof.
  apply main_inv in Hrun1 as (recent1 & rk1 & Hr1 & Hrk1 & ->).
  apply main_inv in Hrun2 as (recent2 & rk2 & Hr2 & Hrk2 & ->).
  set (d1 := {| seen_ids_json := _ |}) in *.
  pose proof (selection_unseen i2 recent2 d1) as Hunseen2.
  pose proof (selection_new_seen i1 recent1 d0) as Hnew1.
  assert (Hseen1 : seen_of (seen_ids_json d1)
                   = seen_of (seen_ids_json d0) ∪ (selection i1 recent1 d0).2).
  { subst d1. cbn [seen_ids_json]. apply seen_of_after_commit. }
  assert (Hsel1 : (selection i1 recent1 d0).1
                  = take (Z.to_nat (Z.max 1 (default 5%Z (max_papers_per_day i1))))
                      (filter (λ p, eligible (seen_of (seen_ids_json d0)) p = true)
                         rk1)).
  { unfold selection. by rewrite select_unseen_spec, (ranking_Ok _ _ _ _ Hrk1). }
  assert (Hsel2 : (selection i2 recent2 d1).1
                  = take (Z.to_nat (Z.max 1 (default 5%Z (max_papers_per_day i2))))
                      (filter (λ p, eligible (seen_of (seen_ids_json d0)
                                               ∪ ids_of (selection i1 recent1 d0).1) p
                                    = true) rk2)).
  { unfold selection at 1.
    by rewrite select_unseen_spec, (ranking_Ok _ _ _ _ Hrk2), Hseen1, Hnew1. }
  exists recent1, recent2, rk1, rk2. eexists _, _.
  split; [done|]. split; [done|]. split; [done|]. split; [done|].
  split; [subst d1; cbn [papers_dir]; apply lookup_insert_eq|].
  split; [cbn [papers_dir]; apply lookup_insert_eq|].
  split.
  { rewrite !ids_of_attach_score. rewrite Hseen1, Hnew1 in Hunseen2. set_solver. }
  split; [|split].
  - intros Hroom.
    assert (Hall : (selection i1 recent1 d0).1
                   = filter (λ p, eligible (seen_of (seen_ids_json d0)) p = true) rk1).
    { rewrite Hsel1. apply take_ge.
      rewrite (ranked_perm _ _ _ Hrk1). lia. }
    assert (Hnone : filter (λ p, eligible (seen_of (seen_ids_json d0)
                                           ∪ ids_of (selection i1 recent1 d0).1) p
                                 = true) rk2 = []).
    { apply filter_none. intros p Hp Hel.
      rewrite (ranked_perm _ _ _ Hrk2) in Hp.
      rewrite Hfetched in Hr2.
      pose proof (filter_recent_mono _ _ _ _ _ _ _ Hnow Hr1 Hr2 Hp) as Hp1.
      apply eligible_spec in Hel as (pid & Hid & Hne & Hnot).
      rewrite Hall in Hnot. apply Hnot.
      apply elem_of_union_r, elem_of_ids_of. exists p. split; [|done].
      apply list_elem_of_filter. split.
      - apply eligible_spec. exists pid. split_and!; [done..|]. set_solver.
      - by rewrite (ranked_perm _ _ _ Hrk1). }
    by rewrite Hsel2, Hnone, take_nil.
  - by rewrite Hsel2, ids_of_attach_score.
  - intros -> Hnd.
    set (acc := filter (λ p, eligible (seen_of (seen_ids_json d0)) p = true) rk1)
      in *.
    set (q1 := Z.to_nat (Z.max 1 (default 5%Z (max_papers_per_day i1)))) in *.
    exists (take q1 acc), (drop q1 acc).
    split; [by rewrite take_drop|]. split; [by rewrite Hsel1|].
    rewrite Hsel2, Hsel1. f_equal. f_equal.
    rewrite filter_eligible_union. fold acc.
    pose proof (filter_not_in_first (take q1 acc) (drop q1 acc)) as Hrest.
    rewrite take_drop in Hrest. apply Hrest.
    + apply Forall_forall. intros p Hp.
      apply elem_of_take in Hp as (k & Hp & _).
      apply list_elem_of_lookup_2 in Hp. subst acc.
      apply list_elem_of_filter in Hp as [Hel _].
      apply eligible_spec in Hel as (pid & Hid & _). by exists pid.
    + subst acc. by apply NoDup_omap_filter.
Qed.

Lemma second_run_excludes_first_witness :
  ∃ d1 d2,
    main (run_on "2024-01-31" 2) fresh_disk = Ok d1 ∧
    main (run_on "2024-01-31" 2) d1 = Ok d2 ∧
    ∃ s1 s2,
      papers_dir d1 !! "2024-01-31" = Some s1 ∧
      papers_dir d2 !! "2024-01-31" = Some s2 ∧
      ids_of s1 ## ids_of s2 ∧
      s1 = [doc "101" "2024-01-30"; doc "102" "2024-01-29"] ∧
      s2 = [doc "103" "2024-01-28"].
Proof.
  eexists _, _.
  split; [vm_compute; reflexivity|]. split; [vm_compute; reflexivity|].
  edestruct (second_run_excludes_first
               (run_on "2024-01-31" 2) (run_on "2024-01-31" 2) fresh_disk)
    as (recent & recent2 & rk1 & rk2 & s1 & s2 & _ & _ & _ & _ & Hs1 & Hs2 & Hdis & _);
    [reflexivity|reflexivity|vm_compute; reflexivity
    |vm_compute; reflexivity|].
  exists s1, s2. split; [exact Hs1|]. split; [exact Hs2|]. split; [exact Hdis|].
  vm_compute in Hs1, Hs2. injection Hs1 as <-. injection Hs2 as <-. by split.
Defined.

(** With three acceptable candidates and a quota of two, the second of two
    runs in immediate succession selects the third candidate: its snapshot is
    not empty. *)
Lemma second_run_counterexample :
  papers_dir (runs fresh_disk [run_on "2024-01-31" 2]) !! "2024-01-31"
  = Some [doc "101" "2024-01-30"; doc "102" "2024-01-29"] ∧
  papers_dir (runs fresh_disk [run_on "2024-01-31" 2; run_on "2024-01-31" 2])
    !! "2024-01-31"
  = Some [doc "103" "2024-01-28"].
Proof. split; by vm_compute. Qed.

(** ** C9: the quota is not validated *)

(** C9 (as amended). The configured quota is not validated: whether a run
    completes does not depend on the quota, and for every quota, zero and
    negative ones included, a run whose recency filter and ranking return
    invokes the selector with the quota as configured (5 when none is) and
    writes its output as the snapshot of the day. *)
Theorem quota_not_validated (i : run_input) (d : disk) (quota : option Z) :
  is_ok (main {| max_papers_per_day := quota; client := client i;
                 utcnow := utcnow i; today := today i; fetched := fetched i |} d)
  = is_ok (main i d) ∧
  ∀ recent l,
    filter_recent (utcnow i) (fetched i) 30 = Ok recent →
    ranked (scored i recent (cache_of (scores_json d))) recent = Ok l →
    ∃ d',
      main i d = Ok d' ∧
      papers_dir d' !! today i
      = Some (map (attach_score (scored i recent (cache_of (scores_json d))))
                (select_unseen l (seen_of (seen_ids_json d))
                   (default 5%Z (max_papers_per_day i))).1).
Proof.
  split; [by rewrite !main_is_ok|].
  intros recent l Hrecent Hranked. eexists.
  split; [by eapply main_Ok|].
  cbn [papers_dir]. rewrite lookup_insert_eq. unfold selection.
  by rewrite (ranking_Ok _ _ _ _ Hranked).
Qed.

(** With a quota of zero the run is not refused: the selector is invoked and
    the snapshot written holds a record. *)
Lemma zero_quota_counterexample :
  ∃ d',
    main (run_on "2024-01-31" 0) fresh_disk = Ok d' ∧
    papers_dir d' !! "2024-01-31" = Some [doc "101" "2024-01-30"].
Proof. eexists. split; by vm_compute. Qed.

(** ** C3: a corrupt store *)

Lemma exact_floats_empty : exact_floats ∅.
Proof. apply map_Forall_empty. Qed.



(** ** C8: the oracle adapter *)

Section adapter_facts.
Context (json_loads : string → result json) (py_int : json → result Z).

Lemma parse_score_range json_str v :
  parse_score json_loads py_int json_str = Ok v → (0 ≤ v ≤ 100)%Z.
Proof.
  unfold parse_score.
  destruct (json_loads json_str) as [data|]; [simpl|done].
  destruct (get_score data) as [w|]; [simpl|done].
  destruct (py_int w) as [score|]; [simpl|done].
  intros [= <-]. lia.
Qed.

(** The score returned is clamped to the range, never rejected for being
    outside it. *)
Lemma score_with_deepseek_range reply v :
  score_with_deepseek json_loads py_int reply = Some v → (0 ≤ v ≤ 100)%Z.
Proof.
  unfold score_with_deepseek.
  destruct reply as [content|]; [simpl|done].
  destruct (parse_score _ _ _) as [score|] eqn:Hs; [simpl|done].
  intros [= <-]. by eapply parse_score_range.
Qed.

Lemma score_with_deepseek_unfold content :
  score_with_deepseek json_loads py_int (Ok content)
  = match parse_score json_loads py_int
            (json_payload (unwrap_fence (strip content))) with
    | Ok score => Some score
    | Raise _ => None
    end.
Proof.
  unfold score_with_deepseek. simpl.
  by destruct (parse_score _ _ _).
Qed.
End adapter_facts.

(** C8. The adapter is to parse the first well-formed payload of the reply
    and only that.  It takes the text from the first opening brace to the
    last closing brace instead: for a reply whose payload is followed by a
    remark with a closing brace of its own, the parser is handed payload and
    remark together, rejects them, and the adapter returns no score, where
    the payload alone gives 85. *)
Theorem payload_runs_to_last_brace (json_loads : string → result json)
    (py_int : json → result Z)
    (Hbare : json_loads first_payload = Ok (JObject [("score", JInt 85)]))
    (Hextra : json_loads noisy_reply = Raise JSONDecodeError)
    (Hint : py_int (JInt 85) = Ok 85%Z) :
  json_payload (unwrap_fence (strip first_payload)) = first_payload ∧
  json_payload (unwrap_fence (strip noisy_reply)) = noisy_reply ∧
  score_with_deepseek json_loads py_int (Ok first_payload) = Some 85%Z ∧
  score_with_deepseek json_loads py_int (Ok noisy_reply) = None.
Proof.
  assert (H1 : json_payload (unwrap_fence (strip first_payload)) = first_payload)
    by by vm_compute.
  assert (H2 : json_payload (unwrap_fence (strip noisy_reply)) = noisy_reply)
    by by vm_compute.
  split; [exact H1|]. split; [exact H2|].
  rewrite !score_with_deepseek_unfold, H1, H2. unfold parse_score.
  rewrite Hbare, Hextra. simpl. by rewrite Hint.
Qed.

Lemma payload_runs_to_last_brace_witness :
  sample_loads first_payload = Ok (JObject [("score", JInt 85)]) ∧
  sample_loads noisy_reply = Raise JSONDecodeError ∧
  sample_int (JInt 85) = Ok 85%Z ∧
  score_with_deepseek sample_loads sample_int (Ok noisy_reply) = None.
Proof.
  split; [reflexivity|]. split; [reflexivity|]. split; [reflexivity|].
  apply (payload_runs_to_last_brace sample_loads sample_int); reflexivity.
Defined.

(** * Further properties of the code *)

(** ** [select_unseen]: how many, and which *)

Lemma ids_of_size (l : list paper) : (size (ids_of l) ≤ length l)%nat.
Proof.
  induction l as [|p l IH]; [by rewrite ids_of_nil, size_empty|].
  destruct (p_id p) as [pid|] eqn:Hid.
  - rewrite (ids_of_cons_Some _ _ _ Hid), size_union_alt, size_singleton.
    assert (size (ids_of l ∖ {[pid]}) ≤ size (ids_of l))%nat
      by (apply subseteq_size; set_solver).
    simpl. lia.
  - rewrite (ids_of_cons_None _ _ Hid). simpl. lia.
Qed.

(** X1. [select_unseen] returns as many records as the limit allows, and at
    least one when a candidate is acceptable: their number is the smaller of
    [max(limit, 1)] and the number of candidates whose identifier is present,
    not empty and not in [seen]. *)
Theorem select_unseen_count (papers : list paper) (seen : gset string) (limit : Z) :
  length (select_unseen papers seen limit).1
  = Nat.min (Z.to_nat (Z.max 1 limit))
            (length (filter (λ p, eligible seen p = true) papers)) ∧
  (length (select_unseen papers seen limit).1 ≤ length papers)%nat ∧
  (size (select_unseen papers seen limit).2
   ≤ length (select_unseen papers seen limit).1)%nat.
Proof.
  rewrite select_unseen_spec. cbn [fst snd]. split_and!.
  - apply length_take.
  - rewrite length_take. pose proof (length_filter (λ p, eligible seen p = true) papers).
    lia.
  - apply ids_of_size.
Qed.

(** X2. The records selected are the first acceptable candidates, in the
    order of the input: the acceptable candidates are the selected ones
    followed by those left for a later day.  No identifier returned is in
    [seen]. *)
Theorem select_unseen_prefix (papers : list paper) (seen : gset string) (limit : Z) :
  (∃ later, filter (λ p, eligible seen p = true) papers
            = (select_unseen papers seen limit).1 ++ later) ∧
  (select_unseen papers seen limit).1 `sublist_of` papers ∧
  (select_unseen papers seen limit).2 ## seen.
Proof.
  rewrite select_unseen_spec. cbn [fst snd]. split_and!.
  - eexists. symmetry. apply take_drop.
  - etrans; [apply sublist_take|apply sublist_filter].
  - intros pid (p & Hp & Hid)%elem_of_ids_of Hseen.
    apply elem_of_take in Hp as (k & Hp & _).
    apply list_elem_of_lookup_2, list_elem_of_filter in Hp as [Hel _].
    apply eligible_spec in Hel as (qid & Hq & _ & Hnot). congruence.
Qed.

(** ** The ranking of a list that is in order already *)

Lemma desc_sorted_same_key {A K : Type} (key : A → K) (ltb : K → K → bool)
    (l : list A) (c : K) :
  ltb c c = false → Forall (λ a, key a = c) l → desc_sorted key ltb l.
Proof.
  intros Hc. induction 1 as [|a l Ha Hl IH]; [constructor|].
  constructor; [done|].
  eapply Forall_impl; [exact Hl|]. intros b Hb. by rewrite Ha, Hb.
Qed.

(** X3. Ranking leaves alone a list that is in descending order of its sort
    keys already, when every key can be computed: with its stable sort,
    [main] changes the recency order of the candidates only where a score
    demands it.  The sort key is the cached score as a float, which is the
    score itself up to 2^53 in magnitude. *)
Theorem ranked_fixes_sorted (scores : gmap string Z) (recent : list paper)
    (Hkeys : Forall (λ p, is_ok (paper_score scores p) = true) recent)
    (Hsorted : desc_sorted (float_key scores) Z.ltb recent) :
  ranked scores recent = Ok recent.
Proof.
  rewrite ranked_keys_Ok by done. f_equal. symmetry.
  by apply sorted_reverse_unique;
    [apply Zltb_asym|apply Zltb_nlt_trans|apply Zltb_total| |].
Qed.

Lemma ranked_fixes_sorted_witness :
  Forall (λ p, is_ok (paper_score scenario_scores p) = true)
    [doc "C1" "2024-01-20"; doc "C2" "2024-01-19"; doc "C3" "2024-01-20"] ∧
  desc_sorted (float_key scenario_scores) Z.ltb
    [doc "C1" "2024-01-20"; doc "C2" "2024-01-19"; doc "C3" "2024-01-20"] ∧
  ranked scenario_scores
    [doc "C1" "2024-01-20"; doc "C2" "2024-01-19"; doc "C3" "2024-01-20"]
  = Ok [doc "C1" "2024-01-20"; doc "C2" "2024-01-19"; doc "C3" "2024-01-20"].
Proof.
  assert (Hk : Forall (λ p, is_ok (paper_score scenario_scores p) = true)
                 [doc "C1" "2024-01-20"; doc "C2" "2024-01-19"; doc "C3" "2024-01-20"]).
  { repeat constructor. }
  assert (H : desc_sorted (float_key scenario_scores) Z.ltb
                [doc "C1" "2024-01-20"; doc "C2" "2024-01-19"; doc "C3" "2024-01-20"]).
  { repeat constructor. }
  split; [exact Hk|]. split; [exact H|]. apply (ranked_fixes_sorted _ _ Hk H).
Defined.

(** ** The scoring pass: what it adds to the cache *)

Lemma scoring_loop_size score recent scores calls n :
  size (scoring_loop score recent scores calls n).1.1 + n
  = size scores + (scoring_loop score recent scores calls n).2 ∧
  (n ≤ (scoring_loop score recent scores calls n).2)%nat ∧
  (length (scoring_loop score recent scores calls n).1.2
   ≤ length calls + length recent)%nat ∧
  ((scoring_loop score recent scores calls n).2 + length calls
   ≤ n + length (scoring_loop score recent scores calls n).1.2)%nat.
Proof.
  revert scores calls n.
  induction recent as [|p rest IH]; intros scores calls n; simpl.
  - lia.
  - destruct (p_id p) as [pid|] eqn:Hid.
    2: { specialize (IH scores calls n). lia. }
    destruct (bool_decide (pid = "")) eqn:Hempty; simpl.
    { specialize (IH scores calls n). lia. }
    apply bool_decide_eq_false in Hempty.
    case_bool_decide as Hin.
    { specialize (IH scores calls n). lia. }
    assert (Hnone : scores !! pid = None).
    { destruct (scores !! pid) eqn:E; [|done]. exfalso. apply Hin. by eexists. }
    destruct (score (length calls) p) as [s|].
    + specialize (IH (<[pid := s]> scores) (calls ++ [p]) (S n)).
      rewrite map_size_insert_None in IH by done.
      rewrite length_app in IH. simpl in IH. lia.
    + specialize (IH scores (calls ++ [p]) n).
      rewrite length_app in IH. simpl in IH. lia.
Qed.

Lemma scoring_loop_unchanged score recent scores :
  (scoring_loop score recent scores [] 0).2 = 0%nat →
  (scoring_loop score recent scores [] 0).1.1 = scores.
Proof.
  intros H0.
  destruct (scoring_loop_size score recent scores [] 0) as (Hsize & _).
  destruct (scoring_loop_inv score recent scores [] 0) as (_ & _ & Hsub & _).
  symmetry. apply map_subseteq_size_eq; [done|lia].
Qed.

(** X4. The counter [new_scores] of the scoring pass is the number of entries
    the pass added to the cache, so [main] rewrites [scores.json] exactly when
    the cache has changed; the pass makes at most one call per candidate, and
    adds at most one entry per call. *)
Theorem scoring_pass_accounting (score : nat → paper → option Z)
    (recent : list paper) (scores : gmap string Z) :
  size (scoring_loop score recent scores [] 0).1.1
  = size scores + (scoring_loop score recent scores [] 0).2 ∧
  ((scoring_loop score recent scores [] 0).2 = 0%nat
   ↔ (scoring_loop score recent scores [] 0).1.1 = scores) ∧
  (length (scoring_loop score recent scores [] 0).1.2 ≤ length recent)%nat ∧
  ((scoring_loop score recent scores [] 0).2
   ≤ length (scoring_loop score recent scores [] 0).1.2)%nat.
Proof.
  destruct (scoring_loop_size score recent scores [] 0) as (Hsize & _ & Hcalls & Hnew).
  destruct (scoring_loop_inv score recent scores [] 0) as (_ & _ & Hsub & _).
  simpl in *. split_and!; [lia| |lia|lia].
  split.
  - apply scoring_loop_unchanged.
  - intros Heq. rewrite Heq in Hsize. lia.
Qed.

Lemma scoring_loop_provenance_gen score recent scores calls n pid v :
  (scoring_loop score recent scores calls n).1.1 !! pid = Some v →
  scores !! pid = Some v ∨
  (scores !! pid = None ∧
   ∃ k p, (length calls ≤ k)%nat ∧
          (scoring_loop score recent scores calls n).1.2 !! k = Some p ∧
          p_id p = Some pid ∧ score k p = Some v).
Proof.
  revert scores calls n.
  induction recent as [|p rest IH]; intros scores calls n; simpl.
  - by left.
  - destruct (p_id p) as [qid|] eqn:Hid; [|apply IH].
    destruct (bool_decide (qid = "")) eqn:Hempty; simpl; [apply IH|].
    apply bool_decide_eq_false in Hempty.
    case_bool_decide as Hin; [apply IH|].
    assert (Hnone : scores !! qid = None).
    { destruct (scores !! qid) eqn:E; [|done]. exfalso. apply Hin. by eexists. }
    destruct (score (length calls) p) as [s|] eqn:Hs.
    + intros Hfinal.
      destruct (IH _ _ _ Hfinal) as [Hhere|(Hnone' & k & q & Hk & Hq & Hqid & Hqs)].
      * destruct (decide (qid = pid)) as [->|Hne].
        -- rewrite lookup_insert_eq in Hhere. injection Hhere as ->.
           right. split; [done|]. exists (length calls), p.
           split; [done|]. split; [|done].
           destruct (scoring_loop_inv score rest (<[pid:=v]> scores) (calls ++ [p]) (S n))
             as (new & -> & _ & _).
           rewrite <- app_assoc. by rewrite lookup_app_r, Nat.sub_diag by done.
        -- rewrite lookup_insert_ne in Hhere by done. by left.
      * right. split.
        { destruct (decide (qid = pid)) as [->|Hne]; [done|].
          by rewrite lookup_insert_ne in Hnone' by done. }
        exists k, q. rewrite length_app in Hk. simpl in Hk.
        split; [lia|done].
    + intros Hfinal.
      destruct (IH _ _ _ Hfinal) as [Hhere|(Hnone' & k & q & Hk & Hq & Hqid & Hqs)];
        [by left|].
      right. split; [done|]. exists k, q. rewrite length_app in Hk. simpl in Hk.
      split; [lia|done].
Qed.

(** X5. Every entry of the cache after the scoring pass was in the cache
    before it, or is the answer the oracle gave to a call of this pass for a
    record with that identifier; the pass invents no entry and alters none. *)
Theorem scoring_pass_provenance (score : nat → paper → option Z)
    (recent : list paper) (scores : gmap string Z) (pid : string) (v : Z)
    (Hfinal : (scoring_loop score recent scores [] 0).1.1 !! pid = Some v) :
  scores !! pid = Some v ∨
  (scores !! pid = None ∧
   ∃ k p, (scoring_loop score recent scores [] 0).1.2 !! k = Some p ∧
          p_id p = Some pid ∧ score k p = Some v).
Proof.
  destruct (scoring_loop_provenance_gen _ _ _ _ _ _ _ Hfinal)
    as [?|(? & k & p & _ & ? & ? & ?)]; [by left|].
  right. split; [done|]. by exists k, p.
Qed.

Lemma scoring_pass_provenance_witness :
  (scoring_loop fickle_oracle three_docs ∅ [] 0).1.1 !! "102" = Some 10%Z ∧
  ((∅ : gmap string Z) !! "102" = Some 10%Z ∨
   ((∅ : gmap string Z) !! "102" = None ∧
    ∃ k p, (scoring_loop fickle_oracle three_docs ∅ [] 0).1.2 !! k = Some p ∧
           p_id p = Some "102" ∧ fickle_oracle k p = Some 10%Z)).
Proof.
  assert (H : (scoring_loop fickle_oracle three_docs ∅ [] 0).1.1 !! "102"
              = Some 10%Z) by reflexivity.
  split; [exact H|].
  apply (scoring_pass_provenance fickle_oracle three_docs ∅ "102" 10 H).
Defined.

Lemma scoring_loop_down score recent scores calls n :
  (∀ k p, score k p = None) →
  scoring_loop score recent scores calls n
  = (scores, calls ++ filter (λ p, unscored scores p = true) recent, n).
Proof.
  intros Hdown. revert calls.
  induction recent as [|p rest IH]; intros calls; simpl.
  - by rewrite filter_nil, app_nil_r.
  - rewrite filter_cons. destruct (unscored scores p) eqn:U.
    + rewrite decide_True by done. unfold unscored in U.
      destruct (p_id p) as [pid|]; [|done]. cbn [py_not] in U.
      destruct (bool_decide (pid = "") || bool_decide (is_Some (scores !! pid)));
        [done|].
      rewrite Hdown, IH. by rewrite <- app_assoc.
    + rewrite decide_False by done. unfold unscored in U.
      destruct (p_id p) as [pid|]; [|apply IH]. cbn [py_not] in U.
      destruct (bool_decide (pid = "") || bool_decide (is_Some (scores !! pid)));
        [apply IH|done].
Qed.

(** X6. When every call of the oracle fails, the scoring pass leaves the
    cache as it was and counts no new score, having submitted every candidate
    with a non-empty identifier that has no cached score: a failure records
    nothing, so the same candidates are submitted again by the next run. *)
Theorem scoring_pass_oracle_down (score : nat → paper → option Z)
    (recent : list paper) (scores : gmap string Z)
    (Hdown : ∀ k p, score k p = None) :
  scoring_loop score recent scores [] 0
  = (scores, filter (λ p, unscored scores p = true) recent, 0%nat) ∧
  ∀ p pid, p ∈ recent → p_id p = Some pid → pid ≠ "" → scores !! pid = None →
           p ∈ (scoring_loop score recent scores [] 0).1.2.
Proof.
  rewrite (scoring_loop_down _ _ _ _ _ Hdown). split; [done|].
  intros p pid Hp Hid Hne Hnone. cbn [fst snd app].
  apply list_elem_of_filter. split; [|done].
  unfold unscored. rewrite Hid. cbn [py_not].
  rewrite bool_decide_eq_false_2 by done.
  rewrite bool_decide_eq_false_2; [done|].
  rewrite Hnone. by intros [? ?].
Qed.

Lemma scoring_pass_oracle_down_witness :
  (∀ k p, deepseek_scorer sample_loads sample_int service_down k p = None) ∧
  scoring_loop (deepseek_scorer sample_loads sample_int service_down)
    three_docs (scores_of [("102", 70%Z)]) [] 0
  = (scores_of [("102", 70%Z)],
     filter (λ p, unscored (scores_of [("102", 70%Z)]) p = true) three_docs,
     0%nat).
Proof.
  assert (H : ∀ k p, deepseek_scorer sample_loads sample_int service_down k p = None)
    by reflexivity.
  split; [exact H|].
  apply (scoring_pass_oracle_down _ three_docs (scores_of [("102", 70%Z)]) H).
Defined.

Lemma scoring_loop_range (P : Z → Prop) score recent scores calls n :
  (∀ k p v, score k p = Some v → P v) →
  map_Forall (λ _ v, P v) scores →
  map_Forall (λ _ v, P v) (scoring_loop score recent scores calls n).1.1.
Proof.
  intros Hscore. revert scores calls n.
  induction recent as [|p rest IH]; intros scores calls n Hall; simpl; [done|].
  destruct (p_id p) as [pid|]; [|by apply IH].
  destruct (bool_decide (pid = "") || bool_decide (is_Some (scores !! pid)));
    [by apply IH|].
  destruct (score (length calls) p) as [s|] eqn:Hs; [|by apply IH].
  apply IH. apply map_Forall_insert_2; [|done]. by eapply Hscore.
Qed.

(** X7. With the adapter as scorer, a cache whose scores are all between 0
    and 100 is still so after the scoring pass, whatever the service replies
    and whatever the parser makes of it. *)
Theorem scoring_pass_keeps_range (json_loads : string → result json)
    (py_int : json → result Z) (reply : nat → paper → result string)
    (recent : list paper) (scores : gmap string Z)
    (Hrange : map_Forall (λ _ v, 0 ≤ v ≤ 100)%Z scores) :
  map_Forall (λ _ v, 0 ≤ v ≤ 100)%Z
    (scoring_loop (deepseek_scorer json_loads py_int reply) recent scores [] 0).1.1.
Proof.
  apply (scoring_loop_range (λ v, 0 ≤ v ≤ 100)%Z); [|done].
  intros k p v Hv. unfold deepseek_scorer in Hv.
  by eapply score_with_deepseek_range.
Qed.

Lemma scoring_pass_keeps_range_witness :
  map_Forall (λ _ v, 0 ≤ v ≤ 100)%Z (∅ : gmap string Z) ∧
  map_Forall (λ _ v, 0 ≤ v ≤ 100)%Z
    (scoring_loop (deepseek_scorer sample_loads sample_int (λ _ _, Ok first_payload))
       three_docs ∅ [] 0).1.1.
Proof.
  assert (H : map_Forall (λ _ v, 0 ≤ v ≤ 100)%Z (∅ : gmap string Z))
    by apply map_Forall_empty.
  split; [exact H|].
  apply (scoring_pass_keeps_range sample_loads sample_int
           (λ _ _, Ok first_payload) three_docs ∅ H).
Defined.

(** ** What a run leaves on the disk *)

Lemma scored_cache_of i recent g :
  cache_of (scores_json_after i recent g) = scored i recent (cache_of g).
Proof.
  unfold scores_json_after, scored. destruct (client i) as [score|]; [|done].
  case_bool_decide as Hnew.
  - apply cache_of_save_scores.
  - symmetry. by apply scoring_loop_unchanged.
Qed.

Lemma desc_sorted_sublist {A K : Type} (key : A → K) (ltb : K → K → bool)
    (l1 l2 : list A) :
  l1 `sublist_of` l2 → desc_sorted key ltb l2 → desc_sorted key ltb l1.
Proof.
  unfold desc_sorted. induction 1 as [|x l1 l2 Hsub IH|x l1 l2 Hsub IH].
  - done.
  - intros [Hall Hs]%StronglySorted_cons. apply StronglySorted_cons.
    split; [|by apply IH].
    rewrite Forall_forall in Hall |- *. intros y Hy. apply Hall.
    by eapply elem_of_sublist.
  - intros [_ Hs]%StronglySorted_cons. by apply IH.
Qed.

Lemma desc_sorted_map {A K : Type} (key : A → K) (ltb : K → K → bool)
    (f : A → A) (l : list A) :
  (∀ a, key (f a) = key a) → desc_sorted key ltb l → desc_sorted key ltb (map f l).
Proof.
  intros Hf. unfold desc_sorted. induction 1 as [|a l Hs IH Ha]; simpl.
  - constructor.
  - constructor; [done|]. rewrite Forall_map.
    eapply Forall_impl; [exact Ha|]. intros b Hb. simpl. by rewrite !Hf.
Qed.

Lemma paper_score_attach scores scores' p :
  paper_score scores (attach_score scores' p) = paper_score scores p.
Proof. unfold paper_score. by rewrite attach_score_id. Qed.

Lemma float_key_attach scores scores' p :
  float_key scores (attach_score scores' p) = float_key scores p.
Proof. unfold float_key. by rewrite paper_score_attach. Qed.

Lemma desc_sorted_ext {A : Type} (key key' : A → Z) (l : list A) :
  (∀ a, key a = key' a) → desc_sorted key Z.ltb l → desc_sorted key' Z.ltb l.
Proof.
  intros Hk. unfold desc_sorted. induction 1 as [|a l Hs IH Ha]; constructor.
  - done.
  - eapply Forall_impl; [exact Ha|]. intros b Hb. simpl in *. by rewrite <- !Hk.
Qed.

Lemma attach_score_cached scores p pid v :
  p_id p = Some pid → scores !! pid = Some v →
  p_score (attach_score scores p) = Some v.
Proof. intros Hid Hv. unfold attach_score. by rewrite Hid, Hv. Qed.

(** X8. After a run that completes, the cache file holds exactly the cache
    the run ranked with, which extends the cache the run loaded.  The snapshot
    of the day has at most [max(limit, 1)] records, in descending order of
    the sort key, the float of their score in that cache, and so in
    descending order of the score itself when the cached scores are at most
    2^53 in magnitude; each has a non-empty identifier that was not in the
    ledger before the run and is in it after, and carries its cached score
    in its ["score"] field when it has one. *)
Theorem main_snapshot_shape (i : run_input) (d d' : disk)
    (Hrun : main i d = Ok d') :
  cache_of (scores_json d) ⊆ cache_of (scores_json d') ∧
  ∃ s,
    papers_dir d' !! today i = Some s ∧
    (length s ≤ Z.to_nat (Z.max 1 (default 5%Z (max_papers_per_day i))))%nat ∧
    desc_sorted (float_key (cache_of (scores_json d'))) Z.ltb s ∧
    (exact_floats (cache_of (scores_json d')) →
     desc_sorted (effective_score (cache_of (scores_json d'))) Z.ltb s) ∧
    Forall (λ p, ∃ pid,
              p_id p = Some pid ∧ pid ≠ "" ∧
              (pid ∉ seen_of (seen_ids_json d)) ∧
              (pid ∈ seen_of (seen_ids_json d')) ∧
              ∀ v, cache_of (scores_json d') !! pid = Some v → p_score p = Some v) s.
Proof.
  apply main_inv in Hrun as (recent & rk & Hrecent & Hranked & ->).
  cbn [scores_json papers_dir seen_ids_json].
  rewrite scored_cache_of, seen_of_after_commit.
  set (scores := scored i recent (cache_of (scores_json d))).
  split.
  { subst scores. unfold scored. destruct (client i) as [score|]; [|done].
    by destruct (scoring_loop_inv score recent (cache_of (scores_json d)) [] 0)
      as (_ & _ & Hsub & _). }
  eexists. split; [apply lookup_insert_eq|].
  pose proof (selection_new_seen i recent d) as Hnew.
  unfold selection in *. rewrite (ranking_Ok _ _ _ _ Hranked) in Hnew |- *.
  fold scores in Hranked |- *.
  rewrite Hnew. rewrite select_unseen_spec. cbn [fst snd].
  set (l := take _ _).
  assert (Hl : l `sublist_of` rk).
  { subst l. etrans; [apply sublist_take|apply sublist_filter]. }
  assert (Hsorted : desc_sorted (float_key scores) Z.ltb (map (attach_score scores) l)).
  { apply desc_sorted_map; [intros a; apply float_key_attach|].
    eapply desc_sorted_sublist; [exact Hl|by eapply ranked_sorted]. }
  split_and!.
  - rewrite length_map. subst l. rewrite length_take. lia.
  - exact Hsorted.
  - intros Hexact. eapply desc_sorted_ext; [|exact Hsorted].
    intros a. by apply float_key_exact.
  - rewrite Forall_map. apply Forall_forall. intros p Hp. simpl.
    assert (Hel : eligible (seen_of (seen_ids_json d)) p = true).
    { subst l. apply elem_of_take in Hp as (k & Hp & _).
      by apply list_elem_of_lookup_2, list_elem_of_filter in Hp as [? _]. }
    apply eligible_spec in Hel as (pid & Hid & Hne & Hnot).
    exists pid. rewrite attach_score_id. split_and!; [done..| |].
    + apply elem_of_union_r, elem_of_ids_of. by exists p.
    + intros v Hv. by eapply attach_score_cached.
Qed.

Lemma main_snapshot_shape_witness :
  ∃ d', main (run_with fickle_oracle "2024-01-31" 2) fresh_disk = Ok d' ∧
        cache_of (scores_json fresh_disk) ⊆ cache_of (scores_json d').
Proof.
  eexists. split; [vm_compute; reflexivity|].
  eapply (main_snapshot_shape (run_with fickle_oracle "2024-01-31" 2) fresh_disk).
  vm_compute; reflexivity.
Defined.

(** X9. A run that completes touches nothing but what it must: the snapshots
    of other dates are as before; without a client the cache file is not
    written; and when the snapshot of the day is empty the ledger file is not
    written. *)
Theorem main_frame (i : run_input) (d d' : disk) (Hrun : main i d = Ok d') :
  (∀ date, date ≠ today i → papers_dir d' !! date = papers_dir d !! date) ∧
  (client i = None → scores_json d' = scores_json d) ∧
  (papers_dir d' !! today i = Some [] → seen_ids_json d' = seen_ids_json d).
Proof.
  apply main_inv in Hrun as (recent & rk & Hrecent & Hranked & ->).
  cbn [scores_json papers_dir seen_ids_json]. split_and!.
  - intros date Hne. by rewrite lookup_insert_ne.
  - intros Hclient. unfold scores_json_after. by rewrite Hclient.
  - rewrite lookup_insert_eq. intros [= Hnil].
    apply fmap_nil_inv in Hnil.
    rewrite selection_new_seen, Hnil, ids_of_nil.
    by rewrite bool_decide_eq_false_2 by (by intros ?).
Qed.

Lemma main_frame_witness :
  ∃ d', main (run_on "2024-01-31" 2) fresh_disk = Ok d' ∧
        ∀ date, date ≠ "2024-01-31" →
                papers_dir d' !! date = papers_dir fresh_disk !! date.
Proof.
  eexists. split; [vm_compute; reflexivity|].
  eapply (main_frame (run_on "2024-01-31" 2) fresh_disk).
  vm_compute; reflexivity.
Defined.

(** X10. Without a client and with no cached score, a run selects by recency
    alone: the snapshot of the day holds the first [max(limit, 1)] of the
    recent records that have a non-empty identifier outside the ledger, in
    the order of the recency filter and as fetched. *)
Theorem main_recency_only (i : run_input) (d d' : disk) (recent : list paper)
    (Hclient : client i = None)
    (Hcache : cache_of (scores_json d) = ∅)
    (Hrecent : filter_recent (utcnow i) (fetched i) 30 = Ok recent)
    (Hrun : main i d = Ok d') :
  papers_dir d' !! today i
  = Some (take (Z.to_nat (Z.max 1 (default 5%Z (max_papers_per_day i))))
            (filter (λ p, eligible (seen_of (seen_ids_json d)) p = true) recent)).
Proof.
  assert (Hranked : ranked ∅ recent = Ok recent).
  { rewrite (ranked_exact _ _ exact_floats_empty). f_equal.
    symmetry. apply rank_spec_unique; [|done].
    apply (desc_sorted_same_key _ _ _ 0%Z); [done|].
    apply Forall_forall. intros p _. unfold effective_score.
    destruct (p_id p); [by rewrite lookup_empty|done]. }
  assert (Hscored : scored i recent (cache_of (scores_json d)) = ∅).
  { unfold scored. by rewrite Hclient, Hcache. }
  rewrite <- Hscored in Hranked.
  rewrite (main_Ok _ _ _ _ Hrecent Hranked) in Hrun. injection Hrun as <-.
  cbn [papers_dir]. rewrite lookup_insert_eq. f_equal.
  unfold selection. rewrite (ranking_Ok _ _ _ _ Hranked), Hscored.
  rewrite select_unseen_spec. cbn [fst].
  generalize (take (Z.to_nat (1 `max` default 5%Z (max_papers_per_day i)))
                (filter (λ p, eligible (seen_of (seen_ids_json d)) p = true) recent)).
  intros l. induction l as [|p l IH]; [done|]. cbn [map]. rewrite IH. f_equal.
  unfold attach_score. destruct (p_id p); [by rewrite lookup_empty|done].
Qed.

Lemma main_recency_only_witness :
  ∃ d' recent,
    client (run_on "2024-01-31" 2) = None ∧
    cache_of (scores_json fresh_disk) = ∅ ∧
    filter_recent (utcnow (run_on "2024-01-31" 2)) (fetched (run_on "2024-01-31" 2)) 30
    = Ok recent ∧
    main (run_on "2024-01-31" 2) fresh_disk = Ok d' ∧
    papers_dir d' !! "2024-01-31"
    = Some (take 2 (filter (λ p, eligible ∅ p = true) recent)).
Proof.
  eexists _, _. split; [reflexivity|]. split; [reflexivity|].
  split; [vm_compute; reflexivity|]. split; [vm_compute; reflexivity|].
  apply (main_recency_only (run_on "2024-01-31" 2) fresh_disk);
    [reflexivity|reflexivity|vm_compute; reflexivity|vm_compute; reflexivity].
Defined.

(** ** Zero-padded dates: parsing and order *)

Lemma Z_range_Forall (P : Z → Prop) (lo : Z) (n : nat) :
  Forall P (map (λ k, lo + Z.of_nat k)%Z (seq 0 n)) →
  ∀ z, (lo ≤ z < lo + Z.of_nat n)%Z → P z.
Proof.
  intros HP z Hz. rewrite Forall_forall in HP. apply HP.
  apply list_elem_of_fmap. exists (Z.to_nat (z - lo)). split; [lia|].
  apply elem_of_seq. lia.
Qed.

Lemma digit_digit_char n : (0 ≤ n ≤ 9)%Z → digit (digit_char n) = Some n.
Proof.
  intros Hn.
  apply (Z_range_Forall (λ n, digit (digit_char n) = Some n) 0 10); [|lia].
  repeat constructor.
Qed.

Lemma days_in_month_le y m : (days_in_month y m ≤ 31)%Z.
Proof.
  unfold days_in_month.
  destruct m as [|p|p]; try lia.
  repeat (destruct p as [p|p|]; try lia); destruct (is_leap y); lia.
Qed.

Lemma one_or_two_month m rest :
  (1 ≤ m ≤ 12)%Z → one_or_two month_two (pad2 m rest) = Some (m, rest).
Proof.
  intros Hm.
  apply (Z_range_Forall
           (λ m, one_or_two month_two (pad2 m rest) = Some (m, rest)) 1 12); [|lia].
  repeat constructor.
Qed.

Lemma parse_day_pad2 d rest :
  (1 ≤ d ≤ 31)%Z → parse_day (pad2 d rest) = Some (d, rest).
Proof.
  intros Hd.
  apply (Z_range_Forall (λ d, parse_day (pad2 d rest) = Some (d, rest)) 1 31); [|lia].
  repeat constructor.
Qed.

Lemma strptime_iso y m d :
  valid_date y m d →
  strptime_ymd (iso_date y m d) = Ok ((ymd2ord y m d - 1) * us_per_day)%Z.
Proof.
  intros (Hy & Hm & Hd).
  pose proof (days_in_month_le y m) as H31.
  unfold strptime_ymd, iso_date, pad4. cbn [parse_year pad2].
  rewrite !digit_digit_char by (Z.div_mod_to_equations; lia).
  cbn [mbind option_bind expect_dash].
  match goal with
  | |- context [days_in_month ?e _] =>
      replace e with y by (Z.div_mod_to_equations; lia)
  end.
  fold (pad2 d ""). fold (pad2 m (String "-" (pad2 d ""))).
  rewrite one_or_two_month by done. cbn [mbind option_bind expect_dash].
  rewrite parse_day_pad2 by lia. cbn [mbind option_bind].
  rewrite bool_decide_eq_true_2 by done.
  rewrite (proj2 (Z.leb_le 1 y)) by lia.
  rewrite (proj2 (Z.leb_le d _)) by lia. done.
Qed.

Lemma compare_digit_char a b s1 s2 :
  (0 ≤ a ≤ 9)%Z → (0 ≤ b ≤ 9)%Z →
  String.compare (String (digit_char a) s1) (String (digit_char b) s2)
  = match (a ?= b)%Z with
    | Eq => String.compare s1 s2
    | c => c
    end.
Proof.
  intros Ha Hb. revert b Hb.
  apply (Z_range_Forall
           (λ a, ∀ b, (0 ≤ b ≤ 9)%Z →
                 String.compare (String (digit_char a) s1) (String (digit_char b) s2)
                 = match (a ?= b)%Z with
                   | Eq => String.compare s1 s2
                   | c => c
                   end) 0 10); [|lia].
  repeat (apply Forall_cons_2 || apply Forall_nil_2);
    intros b Hb;
    (apply (Z_range_Forall
             (λ b, String.compare (String (digit_char _) s1) (String (digit_char b) s2)
                   = match (_ ?= b)%Z with
                     | Eq => String.compare s1 s2
                     | c => c
                     end) 0 10); [|lia]);
    repeat (apply Forall_cons_2 || apply Forall_nil_2); reflexivity.
Qed.

Lemma compare_pad2 m1 m2 s1 s2 :
  (0 ≤ m1 < 100)%Z → (0 ≤ m2 < 100)%Z →
  String.compare (pad2 m1 s1) (pad2 m2 s2)
  = match (m1 ?= m2)%Z with
    | Eq => String.compare s1 s2
    | c => c
    end.
Proof.
  intros H1 H2. unfold pad2.
  rewrite !compare_digit_char by (Z.div_mod_to_equations; lia).
  destruct (Z.compare_spec (m1 / 10) (m2 / 10));
    destruct (Z.compare_spec (m1 mod 10) (m2 mod 10));
    destruct (Z.compare_spec m1 m2);
    try done; exfalso; Z.div_mod_to_equations; lia.
Qed.

Lemma compare_pad4 y1 y2 s1 s2 :
  (0 ≤ y1 < 10000)%Z → (0 ≤ y2 < 10000)%Z →
  String.compare (pad4 y1 s1) (pad4 y2 s2)
  = match (y1 ?= y2)%Z with
    | Eq => String.compare s1 s2
    | c => c
    end.
Proof.
  intros H1 H2. unfold pad4.
  rewrite !compare_digit_char by (Z.div_mod_to_equations; lia).
  rewrite compare_pad2 by (Z.div_mod_to_equations; lia).
  destruct (Z.compare_spec (y1 / 1000) (y2 / 1000));
    destruct (Z.compare_spec (y1 / 100 mod 10) (y2 / 100 mod 10));
    destruct (Z.compare_spec (y1 mod 100) (y2 mod 100));
    destruct (Z.compare_spec y1 y2);
    try done; exfalso; Z.div_mod_to_equations; lia.
Qed.

Lemma compare_iso_date y1 m1 d1 y2 m2 d2 :
  valid_date y1 m1 d1 → valid_date y2 m2 d2 →
  String.compare (iso_date y1 m1 d1) (iso_date y2 m2 d2)
  = match (y1 ?= y2)%Z with
    | Eq => match (m1 ?= m2)%Z with
            | Eq => (d1 ?= d2)%Z
            | c => c
            end
    | c => c
    end.
Proof.
  intros (Hy1 & Hm1 & Hd1) (Hy2 & Hm2 & Hd2).
  pose proof (days_in_month_le y1 m1). pose proof (days_in_month_le y2 m2).
  unfold iso_date. rewrite compare_pad4 by lia.
  destruct (y1 ?= y2)%Z; [|done..].
  cbn [String.compare]. change (Ascii.compare "-" "-") with Eq. cbv iota.
  rewrite compare_pad2 by lia.
  destruct (m1 ?= m2)%Z; [|done..].
  cbn [String.compare]. change (Ascii.compare "-" "-") with Eq. cbv iota.
  rewrite compare_pad2 by lia.
  by destruct (d1 ?= d2)%Z.
Qed.

Lemma days_before_year_step y :
  days_before_year (y + 1)
  = (days_before_year y + 365 + if is_leap y then 1 else 0)%Z.
Proof.
  unfold days_before_year, is_leap.
  replace (y + 1 - 1)%Z with y by lia.
  destruct (Z.eqb_spec (y mod 4) 0), (Z.eqb_spec (y mod 100) 0),
    (Z.eqb_spec (y mod 400) 0); simpl; Z.div_mod_to_equations; lia.
Qed.

Lemma days_before_year_mono y1 y2 :
  (y1 ≤ y2)%Z → (days_before_year y1 ≤ days_before_year y2)%Z.
Proof. unfold days_before_year. intros H. Z.div_mod_to_equations. lia. Qed.

Lemma day_of_year_bounds y m d :
  (1 ≤ m ≤ 12)%Z → (1 ≤ d ≤ days_in_month y m)%Z →
  (1 ≤ days_before_month y m + d ≤ 365 + if is_leap y then 1 else 0)%Z.
Proof.
  intros Hm. revert d.
  apply (Z_range_Forall
           (λ m, ∀ d, (1 ≤ d ≤ days_in_month y m)%Z →
                 (1 ≤ days_before_month y m + d
                  ≤ 365 + if is_leap y then 1 else 0)%Z) 1 12); [|lia].
  repeat (apply Forall_cons_2 || apply Forall_nil_2);
    intros d; unfold days_before_month; simpl; destruct (is_leap y); lia.
Qed.

Lemma day_of_year_month_mono y m1 d1 m2 d2 :
  (1 ≤ m1 ≤ 12)%Z → (1 ≤ m2 ≤ 12)%Z → (m1 < m2)%Z →
  (1 ≤ d1 ≤ days_in_month y m1)%Z → (1 ≤ d2)%Z →
  (days_before_month y m1 + d1 < days_before_month y m2 + d2)%Z.
Proof.
  intros Hm1 Hm2. revert m2 Hm2 d1 d2.
  apply (Z_range_Forall
           (λ m1, ∀ m2, (1 ≤ m2 ≤ 12)%Z → ∀ d1 d2, (m1 < m2)%Z →
                  (1 ≤ d1 ≤ days_in_month y m1)%Z → (1 ≤ d2)%Z →
                  (days_before_month y m1 + d1 < days_before_month y m2 + d2)%Z)
           1 12); [|lia].
  repeat (apply Forall_cons_2 || apply Forall_nil_2);
    intros m2 Hm2;
    (apply (Z_range_Forall
              (λ m2, ∀ d1 d2, (_ < m2)%Z →
                     (1 ≤ d1 ≤ days_in_month y _)%Z → (1 ≤ d2)%Z →
                     (days_before_month y _ + d1 < days_before_month y m2 + d2)%Z)
              1 12); [|lia]);
    repeat (apply Forall_cons_2 || apply Forall_nil_2);
    intros d1 d2; unfold days_before_month; simpl; destruct (is_leap y); lia.
Qed.

Lemma ymd2ord_compare y1 m1 d1 y2 m2 d2 :
  valid_date y1 m1 d1 → valid_date y2 m2 d2 →
  (ymd2ord y1 m1 d1 ?= ymd2ord y2 m2 d2)%Z
  = match (y1 ?= y2)%Z with
    | Eq => match (m1 ?= m2)%Z with
            | Eq => (d1 ?= d2)%Z
            | c => c
            end
    | c => c
    end.
Proof.
  intros (Hy1 & Hm1 & Hd1) (Hy2 & Hm2 & Hd2). unfold ymd2ord.
  pose proof (day_of_year_bounds y1 m1 d1 Hm1 Hd1) as B1.
  pose proof (day_of_year_bounds y2 m2 d2 Hm2 Hd2) as B2.
  pose proof (days_before_year_step y1) as S1.
  pose proof (days_before_year_step y2) as S2.
  destruct (Z.compare_spec y1 y2) as [->|Hlt|Hgt].
  - destruct (Z.compare_spec m1 m2) as [->|Hlt|Hgt].
    + destruct (Z.compare_spec d1 d2); [apply Z.compare_eq_iff|apply Z.compare_lt_iff
                                        |apply Z.compare_gt_iff]; lia.
    + apply Z.compare_lt_iff.
      pose proof (day_of_year_month_mono y2 m1 d1 m2 d2). lia.
    + apply Z.compare_gt_iff.
      pose proof (day_of_year_month_mono y2 m2 d2 m1 d1). lia.
  - apply Z.compare_lt_iff.
    pose proof (days_before_year_mono (y1 + 1) y2). lia.
  - apply Z.compare_gt_iff.
    pose proof (days_before_year_mono (y2 + 1) y1). lia.
Qed.

Lemma iso_date_ltb y1 m1 d1 y2 m2 d2 :
  valid_date y1 m1 d1 → valid_date y2 m2 d2 →
  String.ltb (iso_date y1 m1 d1) (iso_date y2 m2 d2)
  = (ymd2ord y1 m1 d1 <? ymd2ord y2 m2 d2)%Z.
Proof.
  intros H1 H2. unfold String.ltb, Z.ltb.
  by rewrite compare_iso_date, ymd2ord_compare.
Qed.

Lemma StronglySorted_Forall_impl {A : Type} (R R' : A → A → Prop) (P : A → Prop)
    (l : list A) :
  (∀ a b, P a → P b → R a b → R' a b) →
  Forall P l → StronglySorted R l → StronglySorted R' l.
Proof.
  intros HR HP. induction 1 as [|a l Hs IH Ha]; [constructor|].
  apply Forall_cons in HP as [Hpa HP].
  constructor; [by apply IH|].
  rewrite Forall_forall in Ha, HP |- *. intros b Hb.
  apply HR; [done|by apply HP|by apply Ha].
Qed.

Lemma pub_time_iso p y m d :
  valid_date y m d → p_published p = Some (iso_date y m d) →
  pub_time p = ((ymd2ord y m d - 1) * us_per_day)%Z.
Proof.
  intros Hv Hp. unfold pub_time. rewrite Hp. cbn [strptime_published].
  by rewrite strptime_iso.
Qed.

(** X11. On records whose dates are written zero-padded, as [efetch_pubmed]
    writes them, the order of the recency filter is the order of the
    calendar: what it returns runs from the latest date to the earliest. *)
Theorem filter_recent_newest_first (now : Z) (papers : list paper) (days : Z)
    (recent : list paper)
    (Hrun : filter_recent now papers days = Ok recent)
    (Hiso : Forall iso_published recent) :
  StronglySorted (λ a b, pub_time b ≤ pub_time a)%Z recent.
Proof.
  apply filter_recent_inv in Hrun as (_ & _ & Hrecent).
  assert (Hsorted : desc_sorted published_key String.ltb recent).
  { subst recent.
    apply sorted_reverse_sorted; [apply string_ltb_asym|apply string_ltb_nlt_trans]. }
  eapply StronglySorted_Forall_impl; [|exact Hiso|exact Hsorted].
  intros a b (ya & ma & da & Hva & Ha) (yb & mb & db & Hvb & Hb) Hab.
  rewrite (pub_time_iso _ _ _ _ Hva Ha), (pub_time_iso _ _ _ _ Hvb Hb).
  unfold published_key in Hab. rewrite Ha, Hb in Hab. simpl in Hab.
  rewrite iso_date_ltb in Hab by done. unfold us_per_day. lia.
Qed.

Lemma filter_recent_newest_first_witness :
  filter_recent run_time three_docs 30 = Ok three_docs ∧
  Forall iso_published three_docs ∧
  StronglySorted (λ a b, pub_time b ≤ pub_time a)%Z three_docs.
Proof.
  assert (Hrun : filter_recent run_time three_docs 30 = Ok three_docs)
    by (vm_compute; reflexivity).
  assert (Hiso : Forall iso_published three_docs).
  { repeat (apply Forall_cons_2 || apply Forall_nil_2).
    - exists 2024%Z, 1%Z, 30%Z. split; [|reflexivity]. unfold valid_date. simpl. lia.
    - exists 2024%Z, 1%Z, 29%Z. split; [|reflexivity]. unfold valid_date. simpl. lia.
    - exists 2024%Z, 1%Z, 28%Z. split; [|reflexivity]. unfold valid_date. simpl. lia. }
  split; [exact Hrun|]. split; [exact Hiso|].
  exact (filter_recent_newest_first run_time three_docs 30 three_docs Hrun Hiso).
Defined.

(** ** The recency filter applied twice, and wider windows *)

(** X12. The recency filter is idempotent: applied, at the same time and with
    the same window, to what it returned, it returns the same list. *)
Theorem filter_recent_idempotent (now : Z) (papers : list paper) (days : Z)
    (recent : list paper)
    (Hrun : filter_recent now papers days = Ok recent) :
  filter_recent now recent days = Ok recent.
Proof.
  apply filter_recent_inv in Hrun as (Hdays & Hrange & Hrecent).
  rewrite filter_recent_Ok by done. f_equal.
  assert (Hkept : Forall (λ p, keeps (now - days * us_per_day) p = true) recent).
  { subst recent. apply Forall_forall. intros p.
    rewrite sorted_reverse_perm. by intros [? _]%list_elem_of_filter. }
  rewrite (filter_all _ _ Hkept).
  symmetry. apply sorted_reverse_unique;
    [apply string_ltb_asym|apply string_ltb_nlt_trans|apply string_ltb_total| |done].
  subst recent.
  apply sorted_reverse_sorted; [apply string_ltb_asym|apply string_ltb_nlt_trans].
Qed.

Lemma filter_recent_idempotent_witness :
  filter_recent run_time (future_doc :: doc "old" "2023-11-30" :: three_docs) 30
  = Ok (future_doc :: three_docs) ∧
  filter_recent run_time (future_doc :: three_docs) 30
  = Ok (future_doc :: three_docs).
Proof.
  assert (H : filter_recent run_time
                (future_doc :: doc "old" "2023-11-30" :: three_docs) 30
              = Ok (future_doc :: three_docs)) by (vm_compute; reflexivity).
  split; [exact H|].
  exact (filter_recent_idempotent _ _ _ _ H).
Defined.

(** X13. The recency filter never adds a record and is monotone in its
    threshold: what it returns is, up to order, a part of its input, and a
    record returned for one time and window is returned for every time and
    window with an earlier or equal threshold [now - window]. *)
Theorem filter_recent_monotone (now1 now2 : Z) (papers : list paper)
    (days1 days2 : Z) (recent1 recent2 : list paper)
    (Hrun1 : filter_recent now1 papers days1 = Ok recent1)
    (Hrun2 : filter_recent now2 papers days2 = Ok recent2)
    (Hthreshold : (now2 - days2 * us_per_day ≤ now1 - days1 * us_per_day)%Z) :
  recent1 ⊆+ papers ∧ recent1 ⊆+ recent2 ∧
  (length recent1 ≤ length recent2 ≤ length papers)%nat.
Proof.
  apply filter_recent_inv in Hrun1 as (_ & _ & ->).
  apply filter_recent_inv in Hrun2 as (_ & _ & ->).
  assert (H1 : filter (λ p, keeps (now1 - days1 * us_per_day) p = true) papers
               `sublist_of`
               filter (λ p, keeps (now2 - days2 * us_per_day) p = true) papers).
  { induction papers as [|p papers IH]; [done|].
    rewrite !filter_cons.
    destruct (decide (keeps (now1 - days1 * us_per_day) p = true)) as [Hk|Hk].
    - rewrite decide_True by (eapply keeps_mono; [exact Hthreshold|exact Hk]).
      by constructor.
    - destruct (decide (keeps (now2 - days2 * us_per_day) p = true));
        [by constructor|done]. }
  rewrite !sorted_reverse_perm. split_and!.
  - apply sublist_submseteq, sublist_filter.
  - by apply sublist_submseteq.
  - by apply sublist_length.
  - apply length_filter.
Qed.

Lemma filter_recent_monotone_witness :
  filter_recent run_time (doc "old" "2023-11-30" :: three_docs) 30 = Ok three_docs ∧
  filter_recent run_time (doc "old" "2023-11-30" :: three_docs) 90
  = Ok (three_docs ++ [doc "old" "2023-11-30"]) ∧
  three_docs ⊆+ three_docs ++ [doc "old" "2023-11-30"].
Proof.
  assert (H1 : filter_recent run_time (doc "old" "2023-11-30" :: three_docs) 30
               = Ok three_docs) by (vm_compute; reflexivity).
  assert (H2 : filter_recent run_time (doc "old" "2023-11-30" :: three_docs) 90
               = Ok (three_docs ++ [doc "old" "2023-11-30"]))
    by (vm_compute; reflexivity).
  split; [exact H1|]. split; [exact H2|].
  refine (proj1 (proj2 (filter_recent_monotone _ _ _ _ _ _ _ H1 H2 _))).
  vm_compute. discriminate.
Defined.

(** ** [efetch_pubmed]: what a fetched record looks like *)

Lemma lstrip_nonspace c r : is_space c = false → lstrip (String c r) = String c r.
Proof. intros H. cbn [lstrip]. by rewrite H. Qed.

Lemma lstrip_head s :
  lstrip s = "" ∨ ∃ c r, lstrip s = String c r ∧ is_space c = false.
Proof.
  induction s as [|c r IH]; [by left|].
  cbn [lstrip]. destruct (is_space c) eqn:Hc; [done|].
  right. by exists c, r.
Qed.

Lemma rstrip_idem s : rstrip (rstrip s) = rstrip s.
Proof.
  induction s as [|c r IH]; [done|].
  cbn [rstrip]. destruct (rstrip r) as [|c' r'] eqn:Hr.
  - destruct (is_space c) eqn:Hc; [done|]. cbn [rstrip]. by rewrite Hc.
  - cbn [rstrip] in IH |- *. by rewrite IH.
Qed.

Lemma rstrip_head c r :
  is_space c = false → ∃ r', rstrip (String c r) = String c r'.
Proof.
  intros Hc. cbn [rstrip]. destruct (rstrip r) as [|c' r'].
  - rewrite Hc. by eexists.
  - by eexists.
Qed.

Lemma strip_idem s : strip (strip s) = strip s.
Proof.
  unfold strip. destruct (lstrip_head s) as [->|(c & r & -> & Hc)]; [done|].
  destruct (rstrip_head c r Hc) as [r' Hr'].
  rewrite Hr', (lstrip_nonspace _ _ Hc), <- Hr'. apply rstrip_idem.
Qed.

Lemma authors_of_spec els :
  Forall (λ name, name ≠ "" ∧ strip name = name) (authors_of els)
  ∧ (length (authors_of els) ≤ length els)%nat.
Proof.
  induction els as [|[last_name initials] rest [IH1 IH2]]; [by split|].
  cbn [authors_of].
  destruct (String.eqb_spec
              (strip (or_else last_name "" +:+ " " +:+ or_else initials "")) "")
    as [He|Hne]; cbn [negb length].
  - split; [done|lia].
  - split; [|lia]. constructor; [|done]. split; [done|]. apply strip_idem.
Qed.

(** X14. For Author elements whose texts are ASCII, the author names of a
    fetched record are never empty and carry no surrounding white space;
    there are at most as many names as Author elements, and none at all
    exactly when every Author element has a last name and initials that are
    missing or blank. *)
Theorem efetch_authors_clean (els : list (option string * option string)) :
  forallb ascii_author els = true →
  Forall (λ name, name ≠ "" ∧ strip name = name) (authors_of els)
  ∧ (length (authors_of els) ≤ length els)%nat
  ∧ (authors_of els = [] ↔
     Forall (λ el, strip (or_else el.1 "" +:+ " " +:+ or_else el.2 "") = "") els).
Proof.
  intros _.
  destruct (authors_of_spec els) as [H1 H2]. split; [done|]. split; [done|].
  clear H1 H2.
  induction els as [|[last_name initials] rest IH]; [done|].
  cbn [authors_of].
  destruct (String.eqb_spec
              (strip (or_else last_name "" +:+ " " +:+ or_else initials "")) "")
    as [He|Hne]; cbn [negb].
  - rewrite IH. split; [by constructor|by inversion 1].
  - split; [done|]. by inversion 1.
Qed.

Lemma efetch_authors_clean_witness :
  forallb ascii_author (author_els complete_article) = true
  ∧ Forall (λ name, name ≠ "" ∧ strip name = name)
      (authors_of (author_els complete_article))
  ∧ authors_of (author_els complete_article) = ["Smith J"; "Li"].
Proof.
  assert (Hascii : forallb ascii_author (author_els complete_article) = true)
    by reflexivity.
  split; [exact Hascii|].
  split; [exact (proj1 (efetch_authors_clean _ Hascii))|reflexivity].
Defined.

Lemma pad4_nonempty y : (pad4 y "" =? "")%string = false.
Proof. done. Qed.

Lemma month_normalised m ms :
  (1 ≤ m ≤ 12)%Z → ms ∈ [month_abbr m; decimal m; pad2 m ""] →
  pad_one (get_or month_map (or_else (Some ms) "01") (or_else (Some ms) "01"))
  = pad2 m "".
Proof.
  intros Hm. revert ms.
  apply (Z_range_Forall
           (λ m, ∀ ms, ms ∈ [month_abbr m; decimal m; pad2 m ""] →
                 pad_one (get_or month_map (or_else (Some ms) "01")
                            (or_else (Some ms) "01")) = pad2 m "") 1 12); [|lia].
  repeat (apply Forall_cons_2 || apply Forall_nil_2);
    intros ms Hms; repeat (apply elem_of_cons in Hms as [->|Hms]; [done|]);
    by apply elem_of_nil in Hms.
Qed.

Lemma day_normalised d ds :
  (1 ≤ d ≤ 31)%Z → ds ∈ [decimal d; pad2 d ""] →
  pad_one (or_else (Some ds) "01") = pad2 d "".
Proof.
  intros Hd. revert ds.
  apply (Z_range_Forall
           (λ d, ∀ ds, ds ∈ [decimal d; pad2 d ""] →
                 pad_one (or_else (Some ds) "01") = pad2 d "") 1 31); [|lia].
  repeat (apply Forall_cons_2 || apply Forall_nil_2);
    intros ds Hds; repeat (apply elem_of_cons in Hds as [->|Hds]; [done|]);
    by apply elem_of_nil in Hds.
Qed.

Lemma pub_date_of_iso y m d ms ds :
  valid_date y m d →
  ms ∈ [month_abbr m; decimal m; pad2 m ""] → ds ∈ [decimal d; pad2 d ""] →
  pub_date_of (Some (Some (pad4 y ""), Some ms, Some ds)) = iso_date y m d.
Proof.
  intros (Hy & Hm & Hd) Hms Hds.
  pose proof (days_in_month_le y m) as H31.
  unfold pub_date_of.
  rewrite (month_normalised m ms), (day_normalised d ds) by (done || lia).
  by cbn [or_else]; rewrite !pad4_nonempty.
Qed.

(** X15. The date of a fetched record.  For a day of the calendar whose year
    PubMed writes with four digits, whose month it writes as the English
    abbreviation or as a number with or without a leading zero, and whose
    day it writes as a number with or without a leading zero, the record
    gets the zero-padded text YYYY-MM-DD, which [filter_recent] reads back
    as midnight of that very day. *)
Theorem efetch_date_round_trip (y m d : Z) (ms ds : string) :
  valid_date y m d →
  ms ∈ [month_abbr m; decimal m; pad2 m ""] → ds ∈ [decimal d; pad2 d ""] →
  pub_date_of (Some (Some (pad4 y ""), Some ms, Some ds)) = iso_date y m d
  ∧ strptime_published
      (Some (pub_date_of (Some (Some (pad4 y ""), Some ms, Some ds))))
    = Ok ((ymd2ord y m d - 1) * us_per_day)%Z.
Proof.
  intros Hv Hms Hds. rewrite (pub_date_of_iso y m d ms ds) by done.
  split; [done|]. cbn [strptime_published]. by apply strptime_iso.
Qed.

Lemma efetch_date_round_trip_witness :
  valid_date 2024 3 5
  ∧ "Mar" ∈ [month_abbr 3; decimal 3; pad2 3 ""]
  ∧ "5" ∈ [decimal 5; pad2 5 ""]
  ∧ pub_date_of (Some (Some (pad4 2024 ""), Some "Mar", Some "5")) = iso_date 2024 3 5
  ∧ strptime_published
      (Some (pub_date_of (Some (Some (pad4 2024 ""), Some "Mar", Some "5"))))
    = Ok ((ymd2ord 2024 3 5 - 1) * us_per_day)%Z.
Proof.
  assert (Hv : valid_date 2024 3 5) by (unfold valid_date; cbn; lia).
  assert (Hm : "Mar" ∈ [month_abbr 3; decimal 3; pad2 3 ""]) by (cbn; set_solver).
  assert (Hd : "5" ∈ [decimal 5; pad2 5 ""]) by (cbn; set_solver).
  split; [exact Hv|]. split; [exact Hm|]. split; [exact Hd|].
  exact (efetch_date_round_trip 2024 3 5 "Mar" "5" Hv Hm Hd).
Defined.

(** X16. Missing parts of the date.  A PubDate with a year but no day, or
    with neither month nor day, gets the first day, or the first day of the
    first month.  A record without a PubDate element, or whose PubDate has
    no year, gets the empty date; [filter_recent] never returns a record
    with the empty date. *)
Theorem efetch_date_defaults (y m : Z) (ms : string)
    (month_text day_text : option string) :
  valid_date y m 1 → ms ∈ [month_abbr m; decimal m; pad2 m ""] →
  pub_date_of (Some (Some (pad4 y ""), Some ms, None)) = iso_date y m 1
  ∧ pub_date_of (Some (Some (pad4 y ""), None, None)) = iso_date y 1 1
  ∧ pub_date_of None = ""
  ∧ pub_date_of (Some (None, month_text, day_text)) = ""
  ∧ pub_date_of (Some (Some "", month_text, day_text)) = ""
  ∧ (∀ now papers days recent p,
       filter_recent now papers days = Ok recent →
       p_published p = Some "" → p ∉ recent).
Proof.
  intros (Hy & Hm & Hd) Hms. split; [|split; [|split; [|split; [|split]]]]; try done.
  - unfold pub_date_of.
    rewrite (month_normalised m ms) by done.
    by cbn [or_else]; rewrite !pad4_nonempty.
  - intros now papers days recent p HOk Hp Hin.
    apply (elem_of_filter_recent _ _ _ _ _ HOk) in Hin.
    destruct Hin as [_ Hk]. revert Hk. unfold keeps. by rewrite Hp.
Qed.

Lemma efetch_date_defaults_witness :
  valid_date 2024 3 1
  ∧ "3" ∈ [month_abbr 3; decimal 3; pad2 3 ""]
  ∧ pub_date_of (Some (Some (pad4 2024 ""), Some "3", None)) = iso_date 2024 3 1.
Proof.
  assert (Hv : valid_date 2024 3 1) by (unfold valid_date; cbn; lia).
  assert (Hm : "3" ∈ [month_abbr 3; decimal 3; pad2 3 ""]) by (cbn; set_solver).
  split; [exact Hv|]. split; [exact Hm|].
  exact (proj1 (efetch_date_defaults 2024 3 "3" None None Hv Hm)).
Defined.

Lemma efetch_loop_app articles papers :
  efetch_loop articles papers
  = (more ← efetch_loop articles []; Ok (papers ++ more)).
Proof.
  revert papers. induction articles as [|a rest IH]; intros papers.
  - cbn. by rewrite app_nil_r.
  - cbn [efetch_loop]. destruct (pmid_el a) as [[text|]|]; [|done|by apply IH].
    cbn [app]. rewrite IH, (IH [_]).
    destruct (efetch_loop rest []) as [more|e]; [|done].
    cbn. by rewrite <- app_assoc.
Qed.

Lemma efetch_loop_Ok articles :
  Forall (λ a, pmid_el a ≠ Some None) articles →
  ∃ papers, efetch_loop articles [] = Ok papers
    ∧ map p_id papers
      = map (λ a, strip <$> default None (pmid_el a))
          (filter (λ a, has_pmid a = true) articles)
    ∧ Forall (λ p, ∃ pmid, p_id p = Some pmid ∧ strip pmid = pmid
                   ∧ p_url p = "https://pubmed.ncbi.nlm.nih.gov/" +:+ pmid +:+ "/"
                   ∧ p_score p = None
                   ∧ (∃ date, p_published p = Some date)
                   ∧ Forall (λ name, name ≠ "" ∧ strip name = name) (p_authors p)
                   ∧ strip (p_title p) = p_title p
                   ∧ strip (p_journal p) = p_journal p) papers.
Proof.
  induction 1 as [|a rest Ha Hrest (papers & IH & Hids & Hall)].
  - exists []. by split.
  - cbn [efetch_loop].
    destruct (pmid_el a) as [[text|]|] eqn:Hp; [|done|].
    + rewrite efetch_loop_app, IH. eexists. split; [done|].
      rewrite filter_cons_True by (unfold has_pmid; by rewrite Hp). split.
      * cbn. by rewrite Hp, Hids.
      * constructor; [|done]. exists (strip text). cbn.
        split; [done|]. split; [apply strip_idem|]. split; [done|]. split; [done|].
        split; [by eexists|]. split; [apply authors_of_spec|].
        split; [|apply strip_idem].
        unfold title_of. destruct (title_el a) as [[t|]|]; try done.
        destruct (String.eqb t ""); [done|]. apply strip_idem.
    + exists papers.
      rewrite filter_cons_False by (unfold has_pmid; by rewrite Hp). by split.
Qed.

Lemma efetch_loop_Raise articles :
  Exists (λ a, pmid_el a = Some None) articles →
  efetch_loop articles [] = Raise AttributeError.
Proof.
  induction articles as [|a rest IH]; [by inversion 1|].
  intros Hex. cbn [efetch_loop].
  destruct (pmid_el a) as [[text|]|] eqn:Hp; [|done|].
  - rewrite efetch_loop_app, IH; [done|]. inversion Hex; subst; [congruence|done].
  - apply IH. inversion Hex; subst; [congruence|done].
Qed.

(** X17. One bad record fails the whole batch.  When the request succeeds,
    [efetch_pubmed] returns records exactly when no article has a PMID
    element without text: one such element anywhere in the answer raises
    AttributeError, and no record of the batch is returned.  With no
    identifiers no request is made and the result is empty. *)
Theorem efetch_all_or_nothing (pmids : list string)
    (http : string → result (list article)) (articles : list article) :
  pmids ≠ [] → http (String.concat "," pmids) = Ok articles →
  (Exists (λ a, pmid_el a = Some None) articles →
   efetch_pubmed pmids http = Raise AttributeError)
  ∧ (Forall (λ a, pmid_el a ≠ Some None) articles →
     is_ok (efetch_pubmed pmids http) = true)
  ∧ (∀ other, efetch_pubmed [] other = Ok []).
Proof.
  intros Hne Hhttp. unfold efetch_pubmed.
  destruct pmids as [|pmid rest]; [done|]. rewrite Hhttp. cbn [mbind].
  split; [|split; [|done]].
  - intros Hex. cbn. by apply efetch_loop_Raise.
  - intros Hall. cbn. by destruct (efetch_loop_Ok articles Hall) as (papers & -> & _).
Qed.

Lemma efetch_all_or_nothing_witness :
  ["38000001"; "38000002"] ≠ []
  ∧ efetch_pubmed ["38000001"; "38000002"]
      (λ _, Ok [complete_article; article_with_blank_pmid])
    = Raise AttributeError.
Proof.
  assert (Hne : ["38000001"; "38000002"] ≠ @nil string) by done.
  split; [exact Hne|].
  apply (efetch_all_or_nothing ["38000001"; "38000002"]
           (λ _, Ok [complete_article; article_with_blank_pmid])
           [complete_article; article_with_blank_pmid] Hne eq_refl).
  apply Exists_cons_tl, Exists_cons_hd. reflexivity.
Defined.

(** X18. The records fetched.  When [efetch_pubmed] returns on an answer
    whose texts are ASCII, it returns one record for each article that has a
    PMID element, in the order of the answer; each record's identifier is the stripped text of that element,
    its link is the PubMed address of that identifier, it has a date (maybe
    empty) and no score, and its title, journal and author names carry no
    surrounding white space. *)
Theorem efetch_records (pmids : list string)
    (http : string → result (list article)) (articles : list article)
    (papers : list paper) :
  pmids ≠ [] → http (String.concat "," pmids) = Ok articles →
  forallb ascii_article articles = true →
  efetch_pubmed pmids http = Ok papers →
  map p_id papers
  = map (λ a, strip <$> default None (pmid_el a))
      (filter (λ a, has_pmid a = true) articles)
  ∧ Forall (λ p, ∃ pmid, p_id p = Some pmid ∧ strip pmid = pmid
                 ∧ p_url p = "https://pubmed.ncbi.nlm.nih.gov/" +:+ pmid +:+ "/"
                 ∧ p_score p = None
                 ∧ (∃ date, p_published p = Some date)
                 ∧ Forall (λ name, name ≠ "" ∧ strip name = name) (p_authors p)
                 ∧ strip (p_title p) = p_title p
                 ∧ strip (p_journal p) = p_journal p) papers.
Proof.
  intros Hne Hhttp _. unfold efetch_pubmed.
  destruct pmids as [|pmid rest]; [done|]. rewrite Hhttp. cbn [mbind].
  intros HOk. cbn in HOk.
  destruct (decide (Exists (λ a, pmid_el a = Some None) articles)) as [Hex|Hnex].
  - by rewrite (efetch_loop_Raise _ Hex) in HOk.
  - apply not_Exists_Forall in Hnex; [|intros a; apply _].
    destruct (efetch_loop_Ok articles) as (papers' & HOk' & Hids & Hall).
    { eapply Forall_impl; [exact Hnex|]. cbn. intros a Ha. exact Ha. }
    rewrite HOk' in HOk. by injection HOk as <-.
Qed.

Lemma efetch_records_witness :
  ["38000001"; "38000002"] ≠ []
  ∧ forallb ascii_article [complete_article; article_without_pmid] = true
  ∧ map p_id [{| p_id := Some "38000001"; p_title := "An RNA base editor";
                 p_abstract := "Background. Results.";
                 p_authors := ["Smith J"; "Li"];
                 p_published := Some "2024-03-05"; p_journal := "Nature";
                 p_url := "https://pubmed.ncbi.nlm.nih.gov/38000001/";
                 p_score := None |}]
    = map (λ a, strip <$> default None (pmid_el a))
        (filter (λ a, has_pmid a = true) [complete_article; article_without_pmid]).
Proof.
  assert (Hne : ["38000001"; "38000002"] ≠ @nil string) by done.
  assert (Hascii : forallb ascii_article [complete_article; article_without_pmid]
                   = true) by reflexivity.
  split; [exact Hne|]. split; [exact Hascii|].
  exact (proj1 (efetch_records ["38000001"; "38000002"]
                  (λ _, Ok [complete_article; article_without_pmid])
                  [complete_article; article_without_pmid] _ Hne eq_refl Hascii
                  eq_refl)).
Defined.

(** ** The adapter: what is handed to the parser *)

Lemma append_cons a (s t : string) : String a s +:+ t = String a (s +:+ t).
Proof. done. Qed.

Lemma append_nil (s : string) : "" +:+ s = s.
Proof. done. Qed.

Lemma append_assoc (a b c : string) : (a +:+ b) +:+ c = a +:+ (b +:+ c).
Proof.
  induction a as [|x a IH]; [done|]. rewrite !append_cons. by f_equal.
Qed.

Lemma length_append (a b : string) :
  String.length (a +:+ b) = (String.length a + String.length b)%nat.
Proof.
  induction a as [|x a IH]; [done|].
  rewrite append_cons. cbn [String.length]. by rewrite IH.
Qed.

Lemma prefix_char c a r :
  String.prefix (String c "") (String a r) = bool_decide (c = a).
Proof.
  cbn. destruct (ascii_dec c a) as [->|Hne].
  - by rewrite bool_decide_eq_true_2; [destruct r|].
  - by rewrite bool_decide_eq_false_2.
Qed.

Lemma find_char_app c pre rest :
  find pre (String c "") = None →
  find (pre +:+ String c rest) (String c "") = Some (String.length pre).
Proof.
  induction pre as [|a pre IH]; intros Hpre.
  - rewrite append_nil. cbn [find String.length]. rewrite prefix_char.
    by rewrite bool_decide_eq_true_2.
  - rewrite append_cons. cbn [String.length]. cbn [find] in Hpre |- *.
    rewrite prefix_char in Hpre |- *. case_bool_decide; [done|].
    destruct (find pre (String c "")) eqn:Hf; [done|].
    by rewrite IH.
Qed.

Lemma find_char_app_None c a b :
  find a (String c "") = None → find b (String c "") = None →
  find (a +:+ b) (String c "") = None.
Proof.
  induction a as [|x a IH]; intros Ha Hb; [done|].
  rewrite append_cons. cbn [find] in Ha |- *.
  rewrite prefix_char in Ha |- *. case_bool_decide; [done|].
  destruct (find a (String c "")) eqn:Hf; [done|].
  by rewrite IH.
Qed.

Lemma rfind_char_app c s post :
  rfind post (String c "") = None →
  rfind (s +:+ String c post) (String c "") = Some (String.length s).
Proof.
  intros Hpost. induction s as [|a s IH].
  - rewrite append_nil. cbn [rfind String.length]. rewrite Hpost, prefix_char.
    by rewrite bool_decide_eq_true_2.
  - rewrite append_cons. cbn [String.length rfind]. by rewrite IH.
Qed.

Lemma substring_app_prefix (s t : string) :
  String.substring 0 (String.length s) (s +:+ t) = s.
Proof.
  induction s as [|b s IH]; [by destruct t|].
  rewrite append_cons. cbn [String.length String.substring]. by rewrite IH.
Qed.

Lemma substring_app_middle (pre x post : string) :
  String.substring (String.length pre) (String.length x) (pre +:+ x +:+ post) = x.
Proof.
  induction pre as [|a pre IH]; [exact (substring_app_prefix x post)|].
  rewrite append_cons. by cbn [String.length String.substring].
Qed.

Lemma json_payload_braces (pre mid post : string) :
  find pre "{" = None → rfind post "}" = None →
  json_payload (pre +:+ "{" +:+ mid +:+ "}" +:+ post) = "{" +:+ mid +:+ "}".
Proof.
  intros Hpre Hpost. unfold json_payload.
  replace (find (pre +:+ "{" +:+ mid +:+ "}" +:+ post) "{")
    with (Some (String.length pre)) by (symmetry; by apply (find_char_app "{" pre)).
  replace (rfind (pre +:+ "{" +:+ mid +:+ "}" +:+ post) "}")
    with (Some (String.length (pre +:+ "{" +:+ mid))).
  2:{ symmetry. rewrite <- (rfind_char_app "}" (pre +:+ "{" +:+ mid) post Hpost).
      by rewrite !append_assoc. }
  rewrite !length_append. cbn [String.length].
  rewrite (proj2 (Nat.ltb_lt _ _)) by lia.
  replace (String.length pre + (1 + String.length mid) + 1 - String.length pre)%nat
    with (String.length ("{" +:+ mid +:+ "}"))
    by (rewrite !length_append; cbn [String.length]; lia).
  replace (pre +:+ "{" +:+ mid +:+ "}" +:+ post)
    with (pre +:+ ("{" +:+ mid +:+ "}") +:+ post)
    by (by rewrite !append_assoc).
  apply substring_app_middle.
Qed.

(** X19. What the adapter hands to the parser.  When the text has an opening
    brace and, after it, a closing brace, the payload is the text from the
    first opening brace to the last closing brace, both included, whatever
    lies between them; text before and after is dropped.  Extracting the
    payload of a payload changes nothing. *)
Theorem json_payload_extracts (pre mid post : string) :
  find pre "{" = None → rfind post "}" = None →
  json_payload (pre +:+ "{" +:+ mid +:+ "}" +:+ post) = "{" +:+ mid +:+ "}"
  ∧ json_payload (json_payload (pre +:+ "{" +:+ mid +:+ "}" +:+ post))
    = json_payload (pre +:+ "{" +:+ mid +:+ "}" +:+ post).
Proof.
  intros Hpre Hpost. rewrite (json_payload_braces pre mid post) by done.
  split; [done|]. apply (json_payload_braces "" mid ""); done.
Qed.

Lemma json_payload_extracts_witness :
  find "Sure: " "{" = None ∧ rfind " Done." "}" = None
  ∧ json_payload ("Sure: " +:+ "{" +:+ "a}{b" +:+ "}" +:+ " Done.") = "{a}{b}".
Proof.
  assert (H1 : find "Sure: " "{" = None) by reflexivity.
  assert (H2 : rfind " Done." "}" = None) by reflexivity.
  split; [exact H1|]. split; [exact H2|].
  exact (proj1 (json_payload_extracts "Sure: " "a}{b" " Done." H1 H2)).
Defined.

Lemma rstrip_app_nonspace s c :
  is_space c = false → rstrip (s +:+ String c "") = s +:+ String c "".
Proof.
  intros Hc. induction s as [|a s IH].
  - rewrite append_nil. cbn [rstrip]. by rewrite Hc.
  - rewrite append_cons. cbn [rstrip]. rewrite IH. by destruct s.
Qed.

Lemma prefix_nil (t : string) : String.prefix "" t = true.
Proof. by destruct t. Qed.

Lemma prefix_cons a s b t :
  String.prefix (String a s) (String b t) = Ascii.eqb a b && String.prefix s t.
Proof.
  cbn [String.prefix]. destruct (ascii_dec a b) as [->|Hne].
  - by rewrite Ascii.eqb_refl.
  - by apply Ascii.eqb_neq in Hne as ->.
Qed.

Lemma prefix_append (s t : string) : String.prefix s (s +:+ t) = true.
Proof.
  induction s as [|a s IH]; [apply prefix_nil|].
  by rewrite append_cons, prefix_cons, Ascii.eqb_refl.
Qed.

Lemma find_fence_app s t :
  find s "`" = None → find (s +:+ "```" +:+ t) "```" = Some (String.length s).
Proof.
  induction s as [|a s IH]; intros Hs.
  - rewrite append_nil. destruct t; reflexivity.
  - rewrite append_cons. cbn [String.length]. cbn [find] in Hs |- *.
    rewrite prefix_char in Hs. case_bool_decide as Ha; [done|].
    destruct (find s "`") eqn:Hf; [done|].
    rewrite IH by done. rewrite prefix_cons.
    by apply Ascii.eqb_neq in Ha as ->.
Qed.

Lemma drop_str_app (s t : string) : drop_str (String.length s) (s +:+ t) = t.
Proof.
  induction s as [|a s IH]; [by destruct t|].
  rewrite append_cons. by cbn [String.length drop_str].
Qed.

Lemma split_fence body rest :
  find body "`" = None →
  split ("```" +:+ body +:+ "```" +:+ rest) "```" 2 = ["" ; body; rest].
Proof.
  intros Hb. cbn [split].
  replace (find ("```" +:+ body +:+ "```" +:+ rest) "```") with (Some 0%nat).
  2:{ pose proof (prefix_append "```" (body +:+ "```" +:+ rest)) as Hp.
      rewrite !append_cons, append_nil in Hp |- *.
      cbn [find]. by rewrite Hp. }
  replace (drop_str (0 + String.length "```") ("```" +:+ body +:+ "```" +:+ rest))
    with (body +:+ "```" +:+ rest) by done.
  rewrite (find_fence_app body rest Hb).
  replace (String.substring 0 0 ("```" +:+ body +:+ "```" +:+ rest)) with ""
    by done.
  rewrite substring_app_prefix.
  replace (body +:+ "```" +:+ rest) with ((body +:+ "```") +:+ rest)
    by (by rewrite append_assoc).
  replace (String.length body + String.length "```")%nat
    with (String.length (body +:+ "```")) by (by rewrite length_append).
  by rewrite drop_str_app.
Qed.

Lemma lower_append (a b : string) : lower (a +:+ b) = lower a +:+ lower b.
Proof.
  induction a as [|x a IH]; [done|].
  rewrite append_cons. cbn [lower]. by rewrite IH.
Qed.

(** Lines 276-278, for the text between the fences. *)
Lemma after_fence tag rest :
  tag ∈ ["json"; "JSON"; "Json"; ""] →
  (let content := lstrip (tag +:+ newline +:+ String "{" rest) in
   if startswith (lower content) "json" then
     match find content newline with
     | Some _ => nth 1 (split content newline 1) ""
     | None => ""
     end
   else content) = String "{" rest.
Proof.
  intros Htag.
  assert (Htagged : ∀ c t, is_space c = false →
            String.length (String c t) = 4%nat → lower (String c t) = "json" →
            find (String c t) newline = None →
            (let content := lstrip (String c t +:+ newline +:+ String "{" rest) in
             if startswith (lower content) "json" then
               match find content newline with
               | Some _ => nth 1 (split content newline 1) ""
               | None => ""
               end
             else content) = String "{" rest).
  { intros c t Hc Hlen Hlow Hf. cbn zeta.
    rewrite (append_cons c t), (lstrip_nonspace _ _ Hc), <- (append_cons c t).
    unfold startswith. rewrite lower_append, Hlow, prefix_append.
    change (newline +:+ String "{" rest) with (String "010" (String "{" rest)).
    unfold newline in Hf |- *. rewrite (find_char_app "010" (String c t)) by done.
    cbn [split]. rewrite (find_char_app "010" (String c t)) by done.
    cbn [nth]. rewrite Hlen.
    replace (String c t +:+ String "010" (String "{" rest))
      with ((String c t +:+ String "010" "") +:+ String "{" rest)
      by (by rewrite append_assoc).
    replace (4 + String.length (String "010" ""))%nat
      with (String.length (String c t +:+ String "010" ""))
      by (by rewrite length_append, Hlen).
    apply drop_str_app. }
  repeat (apply elem_of_cons in Htag as [->|Htag]; [by apply Htagged|]).
  apply elem_of_cons in Htag as [->|Htag]; [done|].
  by apply elem_of_nil in Htag.
Qed.

Lemma unwrap_fence_fenced tag body :
  tag ∈ ["json"; "JSON"; "Json"; ""] → find body "`" = None →
  unwrap_fence (strip (fenced tag ("{" +:+ body +:+ "}")))
  = "{" +:+ body +:+ "}" +:+ newline.
Proof.
  intros Htag Hbody.
  assert (Hstrip : strip (fenced tag ("{" +:+ body +:+ "}"))
                   = "```" +:+ (tag +:+ newline +:+ "{" +:+ body +:+ "}" +:+ newline)
                     +:+ "```" +:+ "").
  { unfold strip, fenced.
    replace ("```" +:+ tag +:+ newline +:+ ("{" +:+ body +:+ "}") +:+ newline +:+ "```")
      with (String "`" (("``" +:+ tag +:+ newline +:+ ("{" +:+ body +:+ "}")
                        +:+ newline +:+ "``") +:+ String "`" ""))
      by (by rewrite !append_assoc).
    rewrite lstrip_nonspace by done.
    rewrite <- append_cons.
    rewrite rstrip_app_nonspace by done.
    by rewrite append_cons, !append_assoc. }
  rewrite Hstrip. unfold unwrap_fence.
  assert (Hin : find (tag +:+ newline +:+ "{" +:+ body +:+ "}" +:+ newline) "`" = None).
  { repeat apply find_char_app_None; try done.
    repeat (apply elem_of_cons in Htag as [->|Htag]; [done|]).
    by apply elem_of_nil in Htag. }
  rewrite (split_fence _ "" Hin).
  unfold startswith at 1. rewrite prefix_append.
  cbn [length Nat.leb nth].
  apply (after_fence tag (body +:+ "}" +:+ newline) Htag).
Qed.

(** X20. A fenced reply.  For a reply that wraps a payload in braces in a
    Markdown code fence, the opening line bare or tagged json, JSON or Json,
    the adapter hands the parser the payload alone, provided the payload
    has no backquote; the score the parser reads there is clamped to 0..100
    and returned. *)
Theorem fenced_reply_scored (json_loads : string → result json)
    (py_int : json → result Z) (tag body : string)
    (members : list (string * json)) (v : json) (n : Z) :
  tag ∈ ["json"; "JSON"; "Json"; ""] → find body "`" = None →
  json_loads ("{" +:+ body +:+ "}") = Ok (JObject members) →
  dict_get members "score" = Some v → py_int v = Ok n →
  json_payload (unwrap_fence (strip (fenced tag ("{" +:+ body +:+ "}"))))
  = "{" +:+ body +:+ "}"
  ∧ score_with_deepseek json_loads py_int (Ok (fenced tag ("{" +:+ body +:+ "}")))
    = Some (Z.max 0 (Z.min 100 n)).
Proof.
  intros Htag Hbody Hloads Hget Hint.
  assert (Hpayload :
    json_payload (unwrap_fence (strip (fenced tag ("{" +:+ body +:+ "}"))))
    = "{" +:+ body +:+ "}").
  { rewrite unwrap_fence_fenced by done.
    by apply (json_payload_braces "" body newline). }
  split; [done|].
  rewrite score_with_deepseek_unfold, Hpayload. unfold parse_score.
  rewrite Hloads. cbn [mbind result_bind get_score]. rewrite Hget. cbn.
  by rewrite Hint.
Qed.

Lemma fenced_reply_scored_witness :
  "json" ∈ ["json"; "JSON"; "Json"; ""]
  ∧ find score_body "`" = None
  ∧ score_with_deepseek sample_loads sample_int (Ok (fenced "json" first_payload))
    = Some 85%Z.
Proof.
  assert (Htag : "json" ∈ ["json"; "JSON"; "Json"; ""]) by set_solver.
  assert (Hbody : find score_body "`" = None) by reflexivity.
  split; [exact Htag|]. split; [exact Hbody|].
  exact (proj2 (fenced_reply_scored sample_loads sample_int "json" score_body
                  [("score", JInt 85)] (JInt 85) 85 Htag Hbody
                  eq_refl eq_refl eq_refl)).
Defined.



Lemma main_Ok_inv i d d' :
  main i d = Ok d' →
  ∃ recent,
    filter_recent (utcnow i) (fetched i) 30 = Ok recent
    ∧ seen_of (seen_ids_json d')
      = seen_of (seen_ids_json d) ∪ ids_of (selection i recent d).1
    ∧ papers_dir d'
      = <[today i := map (attach_score (scored i recent (cache_of (scores_json d))))
                       (selection i recent d).1]> (papers_dir d).
Proof.
  intros Hrun.
  apply main_inv in Hrun as (recent & rk & Hr & Hranked & ->).
  exists recent. split; [done|]. split; [|done].
  cbn [seen_ids_json]. by rewrite seen_of_after_commit, selection_new_seen.
Qed.

(** X22. Two runs on one day.  When a second run completes on the date of a
    first, the snapshot of that date is replaced: after it no snapshot of any
    date holds an identifier of the first run's snapshot, although all of
    them stay in the ledger, so that no later run selects them again. *)
Theorem same_day_rerun_drops_first (i1 i2 : run_input) (d0 d1 d2 : disk)
    (s1 : list paper) :
  snapshots_in_ledger d0 →
  main i1 d0 = Ok d1 → main i2 d1 = Ok d2 → today i2 = today i1 →
  papers_dir d1 !! today i1 = Some s1 →
  (∀ date s, papers_dir d2 !! date = Some s → ids_of s1 ## ids_of s)
  ∧ ids_of s1 ⊆ seen_of (seen_ids_json d2).
Proof.
  intros Hledger Hrun1 Hrun2 Htoday Hs1.
  apply main_Ok_inv in Hrun1 as (recent1 & _ & Hseen1 & Hdir1).
  apply main_Ok_inv in Hrun2 as (recent2 & _ & Hseen2 & Hdir2).
  pose proof (selection_unseen i1 recent1 d0) as Hunseen1.
  pose proof (selection_unseen i2 recent2 d1) as Hunseen2.
  rewrite Hdir1, lookup_insert_eq in Hs1. injection Hs1 as <-.
  rewrite ids_of_attach_score. rewrite Hseen1 in Hunseen2.
  split.
  - intros date s. rewrite Hdir2, Htoday.
    destruct (decide (date = today i1)) as [->|Hdate].
    + rewrite lookup_insert_eq. intros [= <-].
      rewrite ids_of_attach_score. set_solver.
    + rewrite lookup_insert_ne, Hdir1, lookup_insert_ne by done. intros Hs.
      specialize (Hledger _ _ Hs). set_solver.
  - rewrite Hseen2, Hseen1. set_solver.
Qed.

Lemma same_day_rerun_drops_first_witness :
  ∃ d1 d2 s1,
    main (run_on "2024-01-31" 2) fresh_disk = Ok d1
    ∧ main (run_on "2024-01-31" 2) d1 = Ok d2
    ∧ papers_dir d1 !! "2024-01-31" = Some s1
    ∧ ids_of s1 ⊆ seen_of (seen_ids_json d2).
Proof.
  assert (Hledger : snapshots_in_ledger fresh_disk).
  { intros date s. cbn [fresh_disk papers_dir]. by rewrite lookup_empty. }
  eexists _, _, _.
  split; [vm_compute; reflexivity|].
  split; [vm_compute; reflexivity|].
  split; [vm_compute; reflexivity|].
  eapply (proj2 (same_day_rerun_drops_first
                   (run_on "2024-01-31" 2) (run_on "2024-01-31" 2)
                   fresh_disk _ _ _ Hledger
                   ltac:(vm_compute; reflexivity) ltac:(vm_compute; reflexivity)
                   eq_refl ltac:(vm_compute; reflexivity))).
Defined.

Lemma sorted_strings_sorted l :
  NoDup l → StronglySorted (λ a b, String.ltb a b = true) (sorted_strings l).
Proof.
  assert (Htrans : ∀ a b c, String.ltb a b = true → String.ltb b c = true →
                            String.ltb a c = true).
  { intros a b c Hab Hbc. destruct (String.ltb a c) eqn:Hac; [done|].
    rewrite (string_ltb_nlt_trans a c b) in Hab; [done|done|].
    by apply string_ltb_asym. }
  assert (Hins : ∀ x l, StronglySorted (λ a b, String.ltb a b = true) l → x ∉ l →
                        StronglySorted (λ a b, String.ltb a b = true) (insert_asc x l)).
  { intros x l' Hl Hx. induction Hl as [|y l' Hl' IH Hy]; cbn [insert_asc].
    - repeat constructor.
    - apply not_elem_of_cons in Hx as [Hxy Hx].
      destruct (String.ltb y x) eqn:Hyx.
      + constructor; [by apply IH|].
        apply Forall_forall. intros z Hz.
        rewrite insert_asc_perm in Hz. apply elem_of_cons in Hz as [->|Hz]; [done|].
        rewrite Forall_forall in Hy. by apply Hy.
      + assert (Hlt : String.ltb x y = true).
        { destruct (String.ltb x y) eqn:E; [done|].
          by destruct Hxy; apply string_ltb_total. }
        constructor; [by constructor|].
        constructor; [done|].
        eapply Forall_impl; [exact Hy|]. intros z Hz. by eapply Htrans. }
  induction 1 as [|x l' Hx Hnd IH]; cbn [sorted_strings foldr]; [constructor|].
  apply Hins; [done|]. by rewrite sorted_strings_perm.
Qed.

(** X23. The ledger file is canonical.  What [save_seen_ids] writes is the
    list of the identifiers of the set in strictly ascending order, each
    once, whatever the file held before; saving again what is loaded from it
    writes the very same file. *)
Theorem ledger_file_canonical (seen : gset string) (f g : stored ledger_doc) :
  ∃ items,
    save_seen_ids seen f = Document (LedgerList items)
    ∧ StronglySorted (λ a b, String.ltb a b = true) items
    ∧ NoDup items
    ∧ (∀ x, x ∈ items ↔ x ∈ seen)
    ∧ save_seen_ids seen g = save_seen_ids seen f
    ∧ save_seen_ids (seen_of (save_seen_ids seen f)) g = save_seen_ids seen f.
Proof.
  exists (sorted_strings (elements seen)).
  split; [done|].
  split; [apply sorted_strings_sorted, NoDup_elements|].
  split; [rewrite sorted_strings_perm; apply NoDup_elements|].
  split; [intros x; by rewrite sorted_strings_perm, elem_of_elements|].
  split; [done|]. by rewrite seen_of_save_seen_ids.
Qed.

Lemma efetch_loop_iso articles acc papers :
  Forall well_dated articles → Forall iso_published acc →
  efetch_loop articles acc = Ok papers → Forall iso_published papers.
Proof.
  intros Hall. revert acc. induction Hall as [|a rest Ha Hrest IH]; intros acc Hacc.
  - by intros [= <-].
  - cbn [efetch_loop]. destruct (pmid_el a) as [[text|]|]; [|done|by apply IH].
    apply IH. apply Forall_app. split; [done|]. constructor; [|done].
    destruct Ha as (y & m & d & ms & ds & Hv & Hms & Hds & Hdate).
    exists y, m, d. split; [done|]. cbn [p_published]. f_equal.
    rewrite Hdate. by apply pub_date_of_iso.
Qed.

(** X24. From the answer of PubMed to the recency filter.  When every article
    of the answer carries a full date of the calendar, in any of the ways
    PubMed writes months and days, the records [efetch_pubmed] returns have
    zero-padded dates, and what [filter_recent] keeps of them runs from the
    latest day to the earliest. *)
Theorem fetched_newest_first (pmids : list string)
    (http : string → result (list article)) (papers recent : list paper)
    (now days : Z) :
  (∀ articles, http (String.concat "," pmids) = Ok articles →
               Forall well_dated articles) →
  efetch_pubmed pmids http = Ok papers →
  filter_recent now papers days = Ok recent →
  Forall iso_published papers
  ∧ StronglySorted (λ a b, pub_time b ≤ pub_time a)%Z recent.
Proof.
  intros Hdated Hfetch Hfilter.
  assert (Hiso : Forall iso_published papers).
  { unfold efetch_pubmed in Hfetch. destruct pmids as [|pmid rest].
    - by injection Hfetch as <-.
    - destruct (http (String.concat "," (pmid :: rest))) as [articles|e] eqn:Hhttp;
        [|done].
      cbn in Hfetch. by eapply efetch_loop_iso; [apply Hdated| |exact Hfetch]. }
  split; [done|].
  assert (Hiso' : Forall iso_published recent).
  { apply Forall_forall. intros p Hp.
    apply (elem_of_filter_recent _ _ _ _ _ Hfilter) in Hp as [Hp _].
    rewrite Forall_forall in Hiso. by apply Hiso. }
  apply filter_recent_inv in Hfilter as (_ & _ & Hrecent).
  assert (Hsorted : desc_sorted published_key String.ltb recent).
  { subst recent.
    apply sorted_reverse_sorted; [apply string_ltb_asym|apply string_ltb_nlt_trans]. }
  eapply StronglySorted_Forall_impl; [|exact Hiso'|exact Hsorted].
  intros a b (ya & ma & da & Hva & Ha) (yb & mb & db & Hvb & Hb) Hab.
  rewrite (pub_time_iso _ _ _ _ Hva Ha), (pub_time_iso _ _ _ _ Hvb Hb).
  unfold published_key in Hab. rewrite Ha, Hb in Hab. simpl in Hab.
  rewrite iso_date_ltb in Hab by done. unfold us_per_day. lia.
Qed.

Lemma fetched_newest_first_witness :
  ∃ papers recent,
    efetch_pubmed ["38000002"; "38000001"] two_articles = Ok papers
    ∧ filter_recent (datetime_of 2024 3 10 12 0 0) papers 30 = Ok recent
    ∧ map p_id recent = [Some "38000001"; Some "38000002"]
    ∧ StronglySorted (λ a b, pub_time b ≤ pub_time a)%Z recent.
Proof.
  assert (Hdated : ∀ articles,
            two_articles (String.concat "," ["38000002"; "38000001"]) = Ok articles →
            Forall well_dated articles).
  { intros articles [= <-]. repeat (apply Forall_cons_2 || apply Forall_nil_2).
    - exists 2024%Z, 2%Z, 28%Z, "02", "28".
      split; [unfold valid_date; repeat split; by vm_compute|].
      split; [cbn; set_solver|]. split; [cbn; set_solver|reflexivity].
    - exists 2024%Z, 3%Z, 5%Z, "Mar", "5".
      split; [unfold valid_date; repeat split; by vm_compute|].
      split; [cbn; set_solver|]. split; [cbn; set_solver|reflexivity]. }
  eexists _, _.
  split; [vm_compute; reflexivity|].
  split; [vm_compute; reflexivity|].
  split; [reflexivity|].
  eapply (proj2 (fetched_newest_first ["38000002"; "38000001"] two_articles _ _
                   (datetime_of 2024 3 10 12 0 0) 30 Hdated
                   ltac:(vm_compute; reflexivity) ltac:(vm_compute; reflexivity))).
Defined.
